(** * tracert.py: a traceroute over ICMP echo and UDP probes

    A shallow embedding of [src/tracert.py] and the properties of its
    checksum, its two probe transports, its TTL sweep and its command
    line defaults.

    Conventions.
    - Python integers are [Z]; the masks the code applies are written
      out with [Z.land], shifts with [Z.shiftr]/[Z.shiftl].
    - A [bytes] object is a [list byte]; indexing it yields the octet
      as an integer ([byte_val]).
    - An exception is a value of [exn]; a computation that may raise
      returns a [result].
    - Code that talks to the network runs in the monad [M]: it threads
      a small state (the probe counter and the next free descriptor),
      may raise, and writes every system call and printed line to a
      log in program order.
    - The system calls are those of CPython 3 on Linux: the hop limit
      [setsockopt] takes, the time-out [select] takes and the host
      string [gethostbyaddr] takes are checked as the library and the
      kernel check them. *)

From Stdlib Require Import ZArith QArith List String Ascii Bool Lia Zwf.
From Stdlib.Strings Require Import Byte.
From Equations Require Import Equations.
Import ListNotations.
Local Open Scope string_scope.
Local Open Scope list_scope.
Local Open Scope Z_scope.

Set Implicit Arguments.

(** ** Exceptions and results *)

Inductive exn : Type :=
| IndexError          (* bytes index out of range *)
| StructError         (* struct.error: value out of range for its format *)
| UnboundLocalError   (* a local variable read before assignment *)
| KeyError            (* dict lookup of a missing key *)
| SocketError         (* socket.error, that is OSError and its subclasses *)
| ValueError          (* select: a negative time-out *)
| OverflowError       (* select: a time-out too large for the C time type *)
| TypeError           (* an argument of the wrong kind for the C call *)
| UnicodeError        (* the idna codec refuses a host name *)
| OutOfFuel.          (* the bounded model of [while] ran dry; never produced,
                         see [checksum_calc_fuel] *)

Inductive result (A : Type) : Type :=
| Ret (a : A)
| Raise (e : exn).
Arguments Raise {A} e.

Definition rbind {A B} (r : result A) (k : A -> result B) : result B :=
  match r with
  | Ret a => k a
  | Raise e => Raise e
  end.

Declare Scope result_scope.
Delimit Scope result_scope with result.
Notation "x <-? r ; k" := (rbind r (fun x => k))
  (at level 100, r at next level, right associativity) : result_scope.
Local Open Scope result_scope.

(** ** Bytes *)

Definition byte_val (b : byte) : Z := Z.of_N (Byte.to_N b).

(** The octet [z mod 256]. *)
Definition byte_of_Z (z : Z) : byte :=
  match Byte.of_N (Z.to_N (z mod 256)) with
  | Some b => b
  | None => x00
  end.

Definition len (s : list byte) : Z := Z.of_nat (List.length s).

(** [s[i]] on a bytes object: a negative index counts from the end, an
    index outside the object raises IndexError. *)
Definition getitem (s : list byte) (i : Z) : result Z :=
  let j := if i <? 0 then i + len s else i in
  if j <? 0 then Raise IndexError
  else match nth_error s (Z.to_nat j) with
       | Some b => Ret (byte_val b)
       | None => Raise IndexError
       end.

(** ** struct.pack and socket.htons

    [struct.pack('BBHHH', ...)] uses the host's native byte order; the
    five fields sit at offsets 0, 1, 2, 4 and 6, so native alignment
    adds no padding.  A value outside its field's range raises
    struct.error. *)

Inductive byteorder : Type := LittleEndian | BigEndian.

Definition pack_B (v : Z) : result (list byte) :=
  if (0 <=? v) && (v <=? 255) then Ret [byte_of_Z v] else Raise StructError.

Definition pack_H (bo : byteorder) (v : Z) : result (list byte) :=
  if (0 <=? v) && (v <=? 65535) then
    Ret (match bo with
         | LittleEndian => [byte_of_Z v; byte_of_Z (v / 256)]
         | BigEndian => [byte_of_Z (v / 256); byte_of_Z v]
         end)
  else Raise StructError.

Definition struct_pack_BBHHH (bo : byteorder) (a b c d e : Z) : result (list byte) :=
  pa <-? pack_B a ;
  pb <-? pack_B b ;
  pc <-? pack_H bo c ;
  pd <-? pack_H bo d ;
  pe <-? pack_H bo e ;
  Ret (pa ++ pb ++ pc ++ pd ++ pe).

(** [x >> 8 | (x << 8 & 0xff00)]: the two octets of a 16-bit value
    exchanged. *)
Definition swap_bytes (x : Z) : Z :=
  Z.lor (Z.shiftr x 8) (Z.land (Z.shiftl x 8) 0xff00).

(** [socket.htons]: host to network (big-endian) order of a 16-bit
    value. *)
Definition htons (bo : byteorder) (x : Z) : Z :=
  match bo with
  | LittleEndian => Z.lor (Z.shiftl (Z.land x 0xff) 8) (Z.land (Z.shiftr x 8) 0xff)
  | BigEndian => x
  end.

(** ** checksum_calc (tracert.py, lines 64-85) *)

Definition ICMP_ECHO_REQUEST : Z := 8.

(** [count_to = (len(source_string) / 2) * 2].  In Python 3 [/] is true
    division, so [count_to] is the float [len/2*2]; it is modelled by
    the rational of the same value (exact for every length below 2^53). *)
Definition count_to_of (source_string : list byte) : Q :=
  ((inject_Z (len source_string) / 2) * 2)%Q.

(** [count < count_to], an integer compared with a float. *)
Definition lt_int_float (n : Z) (x : Q) : bool := negb (Qle_bool x (inject_Z n)).

(** The [while count < count_to] loop of lines 69-73.  [fuel] bounds the
    number of iterations. *)
Fixpoint checksum_while (fuel : nat) (source_string : list byte) (count_to : Q)
    (count sum : Z) : result Z :=
  if lt_int_float count count_to then
    match fuel with
    | O => Raise OutOfFuel
    | S fuel' =>
        hi <-? getitem source_string (count + 1) ;
        lo <-? getitem source_string count ;
        let this_val := hi * 256 + lo in
        let sum := sum + this_val in
        let sum := Z.land sum 0xffffffff in
        checksum_while fuel' source_string count_to (count + 2) sum
    end
  else Ret sum.

(** [count_to < len(source_string)], a float compared with an integer. *)
Definition lt_float_int (x : Q) (n : Z) : bool := negb (Qle_bool (inject_Z n) x).

(** Lines 75-77: the trailing byte of an odd-length buffer. *)
Definition checksum_odd (source_string : list byte) (count_to : Q) (sum : Z) : result Z :=
  if lt_float_int count_to (len source_string) then
    last <-? getitem source_string (len source_string - 1) ;
    let sum := sum + last in
    Ret (Z.land sum 0xffffffff)
  else Ret sum.

(** Lines 79-80: the two carry folds. *)
Definition checksum_fold (sum : Z) : Z :=
  let sum := Z.shiftr sum 16 + Z.land sum 0xffff in
  sum + Z.shiftr sum 16.

(** Lines 81-84: complement, mask to 16 bits, exchange the octets. *)
Definition checksum_finish (sum : Z) : Z :=
  let answer := Z.lnot sum in
  let answer := Z.land answer 0xffff in
  swap_bytes answer.

(** Lines 65-73 and 75-77: the 32-bit sum of the buffer. *)
Definition checksum_sum (source_string : list byte) : result Z :=
  let sum := 0 in
  let count_to := count_to_of source_string in
  let count := 0 in
  sum <-? checksum_while (List.length source_string) source_string count_to count sum ;
  checksum_odd source_string count_to sum.

Definition checksum_calc (source_string : list byte) : result Z :=
  sum <-? checksum_sum source_string ;
  Ret (checksum_finish (checksum_fold sum)).

(** Lines 93-94 of trace_icmp: the echo request for identifier [id],
    on a host of byte order [bo]. *)
Definition icmp_packet (bo : byteorder) (id : Z) : result (list byte) :=
  checksum <-? (hdr <-? struct_pack_BBHHH bo ICMP_ECHO_REQUEST 0 0 id 1 ;
                checksum_calc hdr) ;
  struct_pack_BBHHH bo ICMP_ECHO_REQUEST 0 (htons bo checksum) id 1.

Definition bytes_of (l : list Z) : list byte := map byte_of_Z l.

(** ** The network seen by one probe

    What the outside world does during one call of a transport: the
    value [random.random()] returns, whether [sendto] succeeds, what
    [select] reports, what [recvfrom] delivers and what the reverse
    lookup answers.  These failures are of class socket.error, the
    only class the code handles; the exceptions a call raises on an
    argument it refuses are fixed by the argument and are part of the
    call itself ([setsockopt_check], [select_check], [host_check]). *)

(** [random.random()]: the float [k / 2^53] with [0 <= k < 2^53]. *)
Record draw : Type := {
  dr_k : N;
  dr_ok : (dr_k <? 2 ^ 53)%N = true
}.

(** The double nearest to the real [p / 2^53], multiplied by [2^53]:
    [p] itself when it has at most 53 bits, and otherwise [p] rounded to
    its 53 leading bits, a tie going to the even neighbour. *)
Definition round53 (p : Z) : Z :=
  if p <? 2 ^ 53 then p
  else
    let u := 2 ^ (Z.log2 p - 52) in
    let q := p / u in
    let r := p mod u in
    if (u <? 2 * r) || ((2 * r =? u) && Z.odd q) then (q + 1) * u else q * u.

(** [int(random.random() * n)] and [int(n * random.random())] for an
    integer [0 < n < 2^53]: the float product is the exact product
    [k * n / 2^53] rounded to a double, and [int] drops its fraction. *)
Definition scaled_int (d : draw) (n : Z) : Z := round53 (Z.of_N (dr_k d) * n) / 2 ^ 53.

(** An IPv4 address, as [recvfrom] on an AF_INET socket reports the
    sender: four octets, printed in dotted-decimal notation. *)
Record ipv4 : Type := {
  oct1 : byte;
  oct2 : byte;
  oct3 : byte;
  oct4 : byte
}.

Definition digit (n : N) : ascii := ascii_of_N (48 + n).

(** The decimal numeral of an octet, without leading zeros. *)
Definition decimal (b : byte) : string :=
  let n := Byte.to_N b in
  if (n <? 10)%N then String (digit n) ""
  else if (n <? 100)%N then String (digit (n / 10)) (String (digit (n mod 10)) "")
  else String (digit (n / 100))
         (String (digit ((n / 10) mod 10)) (String (digit (n mod 10)) "")).

Definition dotted (a : ipv4) : string :=
  decimal (oct1 a) ++ "." ++ decimal (oct2 a) ++ "." ++ decimal (oct3 a)
    ++ "." ++ decimal (oct4 a).

Definition ip4 (a b c d : Z) : ipv4 :=
  {| oct1 := byte_of_Z a; oct2 := byte_of_Z b; oct3 := byte_of_Z c; oct4 := byte_of_Z d |}.

(** The primary host name of a successful reverse lookup: never the
    empty string. *)
Record hostname : Type := {
  hn_first : ascii;
  hn_rest : string
}.

Definition hn_str (h : hostname) : string := String (hn_first h) (hn_rest h).

Definition hostent : Type := (string * list string * list string)%type.

Record ProbeEvents : Type := {
  ev_random : draw;
  (** [sendto]: [true] when it returns, [false] when it raises socket.error *)
  ev_send : bool;
  (** [select]: [Some true] when the socket becomes readable in time,
      [Some false] when the timeout expires, [None] when it raises
      socket.error *)
  ev_select : option bool;
  (** [recvfrom]: the datagram and the (host, port) it came from, or
      [None] when it raises socket.error *)
  ev_recv : option (list byte * (ipv4 * Z));
  (** the resolver behind [gethostbyaddr], asked about a host string
      the call accepts: (hostname, aliases, addresses), or [None] when
      the call raises socket.error (herror, gaierror) *)
  ev_dns : string -> option (hostname * list string * list string);
  (** whether the idna codec encodes a host string that is not pure
      ASCII *)
  ev_idna : string -> bool
}.

(** ** The log

    Every system call and every printed line, in program order. *)

Definition sock : Type := nat.

Inductive sock_kind : Type :=
| RAW_ICMP     (* socket(AF_INET, SOCK_RAW, ICMP_CODE) *)
| DGRAM_UDP.   (* socket(AF_INET, SOCK_DGRAM, UDP_CODE) *)

(** The lines the program prints.  [LStart] is the "Start tracing ip"
    line of line 128; [LHop i answ None] is the line [{i}. {answ}] and
    [LHop i answ (Some name)] the line [{i}. {answ} ({name})]; [LReached]
    is the line "Reached ". *)
Inductive line : Type :=
| LStart (dest_ip t_type : string) (timeout max_steps port : Z)
| LHop (i : Z) (answ : string) (answ_name : option string)
| LReached
| LErrMain   (* "socket error occurred in Main query" *)
| LErrDNS.   (* "socket error occurred in DNS" *)

Inductive action : Type :=
| Socket (fd : sock) (k : sock_kind)
| SetTTL (fd : sock) (ttl : Z)
| Bind (fd : sock) (host : string) (port : Z)
| SendTo (fd : sock) (data : list byte) (host : string) (port : Z)
| Select (fd : sock) (timeout : Z)
| RecvFrom (fd : sock) (bufsize : Z)
| Close (fd : sock)
| GetHostByAddr (addr : string)
| Stdout (l : line).

(** ** The monad *)

Record state : Type := {
  clock : nat;      (* transport calls begun so far *)
  next_fd : sock    (* next free socket descriptor *)
}.

Definition M (A : Type) : Type := state -> result A * state * list action.

Definition ret {A} (a : A) : M A := fun s => (Ret a, s, []).

Definition raise {A} (e : exn) : M A := fun s => (Raise e, s, []).

Definition bind {A B} (m : M A) (k : A -> M B) : M B :=
  fun s =>
    match m s with
    | (Ret a, s1, l1) => let '(r, s2, l2) := k a s1 in (r, s2, l1 ++ l2)
    | (Raise e, s1, l1) => (Raise e, s1, l1)
    end.

(** A pure computation that may raise. *)
Definition lift {A} (r : result A) : M A := fun s => (r, s, []).

Definition emit (a : action) : M unit := fun s => (Ret tt, s, [a]).

(** [try: body except socket.error: handler]. *)
Definition try_socket_error {A} (body handler : M A) : M A :=
  fun s =>
    match body s with
    | (Raise SocketError, s1, l1) => let '(r, s2, l2) := handler s1 in (r, s2, l1 ++ l2)
    | other => other
    end.

Declare Scope monad_scope.
Delimit Scope monad_scope with monad.
Notation "x <- m ;; k" := (bind m (fun x => k))
  (at level 100, m at next level, right associativity) : monad_scope.
Notation "' pat <- m ;; k" := (bind m (fun x => match x with pat => k end))
  (at level 100, pat pattern, m at next level, right associativity) : monad_scope.
Notation "m ;; k" := (bind m (fun _ => k))
  (at level 100, right associativity) : monad_scope.
Local Open Scope monad_scope.

Definition when (b : bool) (m : M unit) : M unit := if b then m else ret tt.

(** Reading a local variable: UnboundLocalError when no assignment
    reached it. *)
Definition local_var {A} (v : option A) : M A :=
  match v with
  | Some a => ret a
  | None => raise UnboundLocalError
  end.

Definition print (l : line) : M unit := emit (Stdout l).

(** ** System calls

    Each call is written to the log, whether it returns or raises.
    [socket], [bind] and [close] always succeed here; [setsockopt],
    [select] and [gethostbyaddr] first check their argument, as the
    library and the kernel (Linux) do; [sendto], [select], [recvfrom]
    and [gethostbyaddr] then do what the events of the probe say. *)

Definition socket_socket (k : sock_kind) : M sock :=
  fun s => (Ret (next_fd s), {| clock := clock s; next_fd := S (next_fd s) |},
            [Socket (next_fd s) k]).

(** What [setsockopt(SOL_IP, IP_TTL, ttl)] makes of its value: a value
    that is no C [int] is refused by the call itself (TypeError); the
    kernel takes 1 to 255, and -1 for its default, and refuses any
    other with EINVAL (OSError). *)
Definition setsockopt_check (ttl : Z) : option exn :=
  if (ttl <? - 2 ^ 31) || (2 ^ 31 - 1 <? ttl) then Some TypeError
  else if ((1 <=? ttl) && (ttl <=? 255)) || (ttl =? -1) then None
  else Some SocketError.

Definition setsockopt_ttl (fd : sock) (ttl : Z) : M unit :=
  emit (SetTTL fd ttl) ;;
  match setsockopt_check ttl with
  | Some e => raise e
  | None => ret tt
  end.

Definition sock_bind (fd : sock) (host : string) (port : Z) : M unit :=
  emit (Bind fd host port).

Definition close (fd : sock) : M unit := emit (Close fd).

Definition sendto (ev : ProbeEvents) (fd : sock) (data : list byte)
    (host : string) (port : Z) : M unit :=
  emit (SendTo fd data host port) ;;
  if ev_send ev then ret tt else raise SocketError.

(** What [select.select] makes of an integer time-out in seconds: one
    whose nanoseconds overflow 64 bits raises OverflowError, a negative
    one ValueError. *)
Definition select_check (timeout : Z) : option exn :=
  if (timeout <? - 9223372036) || (9223372036 <? timeout) then Some OverflowError
  else if timeout <? 0 then Some ValueError
  else None.

(** [select.select([fd], [], [], timeout)]: the three lists it returns. *)
Definition select_select (ev : ProbeEvents) (fd : sock) (timeout : Z)
    : M (list sock * list sock * list sock) :=
  emit (Select fd timeout) ;;
  match select_check timeout with
  | Some e => raise e
  | None =>
      match ev_select ev with
      | Some true => ret ([fd], [], [])
      | Some false => ret ([], [], [])
      | None => raise SocketError
      end
  end.

(** [fd.recvfrom(bufsize)]: at most [bufsize] bytes of the datagram, and
    its sender as the pair (host, port), the host in dotted-decimal
    notation. *)
Definition recvfrom (ev : ProbeEvents) (fd : sock) (bufsize : Z)
    : M (list byte * (string * Z)) :=
  emit (RecvFrom fd bufsize) ;;
  match ev_recv ev with
  | Some (data, (host, p)) => ret (firstn (Z.to_nat bufsize) data, (dotted host, p))
  | None => raise SocketError
  end.

Definition is_ascii (s : string) : bool :=
  forallb (fun c => (N_of_ascii c <? 128)%N) (list_ascii_of_string s).

Definition has_nul (s : string) : bool :=
  existsb (fun c => (N_of_ascii c =? 0)%N) (list_ascii_of_string s).

(** The idna codec on pure ASCII: every label but the last has 1 to 63
    characters, the last at most 63.  [n] counts the characters of the
    label being read. *)
Fixpoint labels_ok (s : string) (n : nat) : bool :=
  match s with
  | EmptyString => (n <? 64)%nat
  | String c s' =>
      if Ascii.eqb c "."
      then (0 <? n)%nat && (n <? 64)%nat && labels_ok s' 0
      else labels_ok s' (S n)
  end.

(** What [gethostbyaddr] makes of its argument before any lookup: the
    string is encoded with the idna codec, whose refusal is a
    UnicodeError, and the encoded name must hold no NUL character
    (TypeError). *)
Definition host_check (idna : string -> bool) (s : string) : option exn :=
  if (if is_ascii s then labels_ok s 0 else idna s)
  then (if has_nul s then Some TypeError else None)
  else Some UnicodeError.

Definition is_digit (c : ascii) : bool :=
  (48 <=? N_of_ascii c)%N && (N_of_ascii c <=? 57)%N.

(** One to three decimal digits. *)
Definition is_numeral (s : string) : bool :=
  (1 <=? String.length s)%nat && (String.length s <=? 3)%nat
  && forallb is_digit (list_ascii_of_string s).

Definition gethostbyaddr (ev : ProbeEvents) (addr : string) : M hostent :=
  emit (GetHostByAddr addr) ;;
  match host_check (ev_idna ev) addr with
  | Some e => raise e
  | None =>
      match ev_dns ev addr with
      | Some (name, aliases, addresses) => ret (hn_str name, aliases, addresses)
      | None => raise SocketError
      end
  end.

Definition is_empty {A} (l : list A) : bool :=
  match l with
  | [] => true
  | _ :: _ => false
  end.

(** [bytes('hello', "utf-8")] *)
Definition hello : list byte := [x68; x65; x6c; x6c; x6f].

Definition transport : Type := string -> Z -> Z -> bool -> M (string * string).

(** ** The loop of checksum_calc, two bytes at a time *)

Fixpoint pair_sum (sum : Z) (s : list byte) : result Z :=
  match s with
  | [] => Ret sum
  | [_] => Raise IndexError
  | lo :: hi :: rest =>
      pair_sum (Z.land (sum + (byte_val hi * 256 + byte_val lo)) 0xffffffff) rest
  end.

(** ** The checksum as the specification words it (section 4.1)

    The buffer summed as 16-bit words [low + high * 256], a trailing odd
    byte added alone; carries folded until the sum fits 16 bits; the
    one's complement masked to 16 bits; its two octets exchanged. *)

Fixpoint spec_word_sum (s : list byte) : Z :=
  match s with
  | lo :: hi :: rest => (byte_val lo + byte_val hi * 256) + spec_word_sum rest
  | [b] => byte_val b
  | [] => 0
  end.

(** [sum = (sum >> 16) + (sum & 0xFFFF)] *)
Definition fold_once (sum : Z) : Z := Z.shiftr sum 16 + Z.land sum 0xFFFF.

#[local] Instance Zwf0_wf : WellFounded (Zwf 0) := Zwf_well_founded 0.

(** [fold_once] repeated until the sum fits in 16 bits. *)
Equations spec_fold (sum : Z) : Z by wf sum (Zwf 0) :=
  spec_fold sum with Z_lt_dec sum 65536 := {
    | left _ => sum
    | right H => spec_fold (fold_once sum) }.
Next Obligation.
  unfold Zwf, fold_once.
  change 65535 with (Z.ones 16). rewrite Z.land_ones, Z.shiftr_div_pow2 by lia.
  change (2 ^ 16) with 65536.
  assert (0 <= sum mod 65536 < 65536) by (apply Z.mod_pos_bound; lia).
  pose proof (Z.div_mod sum 65536 ltac:(lia)).
  assert (1 <= sum / 65536) by (apply Z.div_le_lower_bound; lia).
  lia.
Qed.

(** The two octets of a 16-bit value exchanged. *)
Definition spec_swap (x : Z) : Z := (x mod 256) * 256 + (x / 256) mod 256.

Definition spec_checksum (s : list byte) : Z :=
  spec_swap (Z.land (Z.lnot (spec_fold (spec_word_sum s))) 0xFFFF).

(** A buffer long enough for the 32-bit mask of lines 72 and 77 to drop
    a carry. *)
Definition long_ff : list byte := repeat xff (Z.to_nat 131076).

(** The 16-bit word the checksum loop reads back from a field that
    [pack_H] wrote: the value itself on a little-endian host, its octets
    exchanged on a big-endian one. *)
Definition read_back (bo : byteorder) (v : Z) : Z :=
  match bo with
  | LittleEndian => v
  | BigEndian => spec_swap v
  end.

(** ** Reading a run *)

(** The three components of a run. *)
Definition outcome {A} (x : result A * state * list action) : result A := fst (fst x).
Definition final {A} (x : result A * state * list action) : state := snd (fst x).
Definition log {A} (x : result A * state * list action) : list action := snd x.

(** Views of a log. *)
Definition opened (l : list action) : list sock :=
  flat_map (fun a => match a with Socket fd _ => [fd] | _ => [] end) l.

Definition closed (l : list action) : list sock :=
  flat_map (fun a => match a with Close fd => [fd] | _ => [] end) l.

(** Descriptors acquired and not closed again. *)
Definition leaked (l : list action) : list sock :=
  filter (fun fd => negb (existsb (Nat.eqb fd) (closed l))) (opened l).

(** The hop limits set, one per transport call. *)
Definition ttls (l : list action) : list Z :=
  flat_map (fun a => match a with SetTTL _ ttl => [ttl] | _ => [] end) l.

Definition selects (l : list action) : list (sock * Z) :=
  flat_map (fun a => match a with Select fd t => [(fd, t)] | _ => [] end) l.

Definition recv_sizes (l : list action) : list Z :=
  flat_map (fun a => match a with RecvFrom _ n => [n] | _ => [] end) l.

Definition lookups (l : list action) : list string :=
  flat_map (fun a => match a with GetHostByAddr a => [a] | _ => [] end) l.

Definition printed (l : list action) : list line :=
  flat_map (fun a => match a with Stdout ln => [ln] | _ => [] end) l.

(** A hop line as the record it shows: index, address, name. *)
Record HopRecord : Type := {
  hop_index : Z;
  hop_address : string;
  hop_name : string
}.

Definition hops (l : list action) : list HopRecord :=
  flat_map (fun a => match a with
                     | Stdout (LHop i answ None) =>
                         [{| hop_index := i; hop_address := answ; hop_name := answ |}]
                     | Stdout (LHop i answ (Some name)) =>
                         [{| hop_index := i; hop_address := answ; hop_name := name |}]
                     | _ => []
                     end) l.

(** The reverse lookup with its fallback, lines 50-55 and 117-122, on
    an address the lookup accepts. *)
Definition resolve (ev : ProbeEvents) (address : string) : string :=
  match ev_dns ev address with
  | Some h => hn_str (fst (fst h))
  | None => address
  end.

(** The hop limit is one [setsockopt] takes and the time-out one
    [select] takes: a hop limit from 1 to 255 (or -1) and a time-out
    from 0 to 9223372036 seconds. *)
Definition accepted (ttl timeout : Z) : Prop :=
  setsockopt_check ttl = None /\ select_check timeout = None.

(** What a transport call with hop limit [ttl] and time-out [timeout]
    hands back, read off the events that meet it. *)
Definition probe_outcome (ttl timeout : Z) (ev : ProbeEvents) : result (string * string) :=
  match setsockopt_check ttl with
  | Some e => Raise e
  | None =>
      if ev_send ev then
        match select_check timeout with
        | Some e => Raise e
        | None =>
            match ev_select ev with
            | None => Raise UnboundLocalError
            | Some false => Ret ("*", "*")
            | Some true =>
                match ev_recv ev with
                | None => Raise SocketError
                | Some (_, sender) =>
                    Ret (dotted (fst sender), resolve ev (dotted (fst sender)))
                end
            end
        end
      else Raise UnboundLocalError
  end.

Definition hop (i : Z) (r : string * string) : HopRecord :=
  {| hop_index := i; hop_address := fst r; hop_name := snd r |}.

(** The hop records the loop of [main] emits over [todo] when its
    transport calls meet the events [net k], [net (k+1)], ..., and the
    exception that ends it early, if one does. *)
Fixpoint sweep (net : nat -> ProbeEvents) (dest : string) (timeout : Z)
    (todo : list (Z * Z)) (k : nat) : list HopRecord * option exn :=
  match todo with
  | [] => ([], None)
  | (i, ttl) :: todo' =>
      match probe_outcome ttl timeout (net k) with
      | Ret r =>
          if String.eqb (fst r) dest then ([hop i r], None)
          else let (hs, e) := sweep net dest timeout todo' (S k) in (hop i r :: hs, e)
      | Raise e => ([], Some e)
      end
  end.

(** Transport calls made by such a sweep. *)
Definition calls (sw : list HopRecord * option exn) : nat :=
  (List.length (fst sw) + match snd sw with Some _ => 1 | None => 0 end)%nat.

(** The pairs [(i, ttl)] of [n] steps starting at index [i0]. *)
Definition steps (i0 n : nat) : list (Z * Z) :=
  map (fun k => (Z.of_nat k, Z.of_nat (S k))) (seq i0 n).

(** The line of one hop, lines 132-135. *)
Definition hop_line (i : Z) (r : string * string) : action :=
  Stdout (LHop i (fst r) (if String.eqb (fst r) (snd r) then None else Some (snd r))).

(** ** Further views of a log *)

(** The calls of [sendto], whether they returned or raised: socket,
    payload, destination host and port. *)
Definition sends (l : list action) : list (sock * list byte * string * Z) :=
  flat_map (fun a => match a with
                     | SendTo fd data host p => [(fd, data, host, p)]
                     | _ => []
                     end) l.

Definition is_error_line (ln : line) : bool :=
  match ln with
  | LErrMain | LErrDNS => true
  | _ => false
  end.

(** The printed lines that are not error messages. *)
Definition trace_lines (l : list action) : list line :=
  filter (fun ln => negb (is_error_line ln)) (printed l).

(** The line lines 132-135 print for a record. *)
Definition line_of_hop (h : HopRecord) : line :=
  LHop (hop_index h) (hop_address h)
       (if String.eqb (hop_address h) (hop_name h) then None else Some (hop_name h)).

(** Whether a record carries the destination. *)
Definition reaches (dest : string) (h : HopRecord) : bool :=
  String.eqb (hop_address h) dest.

(** Line 21: [port = 10_000 + int(32567 * random.random())]. *)
Definition port_of (d : draw) : Z := 10000 + scaled_int d 32567.

(** [b] comes after an [a] in [l]. *)
Definition before (a b : action) (l : list action) : Prop :=
  exists l1 l2, l = l1 ++ a :: l2 /\ In b l2.

(** ** Sample networks *)

Definition draw0 : draw := {| dr_k := 0; dr_ok := eq_refl |}.

(** The probe is sent and nothing comes back in time. *)
Definition ev_silent : ProbeEvents :=
  {| ev_random := draw0; ev_send := true; ev_select := Some false;
     ev_recv := None; ev_dns := fun _ => None; ev_idna := fun _ => true |}.

(** The probe is answered from [addr], which resolves to [name] when
    one is given and fails to resolve otherwise. *)
Definition ev_reply (addr : ipv4) (name : option hostname) : ProbeEvents :=
  {| ev_random := draw0; ev_send := true; ev_select := Some true;
     ev_recv := Some (hello, (addr, 0));
     ev_dns := fun _ => option_map (fun n => (n, [], [dotted addr])) name;
     ev_idna := fun _ => true |}.

(** [sendto] raises socket.error. *)
Definition ev_send_fails : ProbeEvents :=
  {| ev_random := draw0; ev_send := false; ev_select := Some false;
     ev_recv := None; ev_dns := fun _ => None; ev_idna := fun _ => true |}.

(** The socket becomes readable and [recvfrom] raises socket.error. *)
Definition ev_recv_fails : ProbeEvents :=
  {| ev_random := draw0; ev_send := true; ev_select := Some true;
     ev_recv := None; ev_dns := fun _ => None; ev_idna := fun _ => true |}.

Definition gw_example : hostname := {| hn_first := "g"; hn_rest := "w.example" |}.

(** A route of three hops: the first silent, the second a router with
    a name, the third the destination 10.0.0.9. *)
Definition route (n : nat) : ProbeEvents :=
  match n with
  | 0%nat => ev_silent
  | 1%nat => ev_reply (ip4 10 0 0 1) (Some gw_example)
  | 2%nat => ev_reply (ip4 10 0 0 9) None
  | _ => ev_silent
  end.

Definition boot : state := {| clock := 0%nat; next_fd := 3%nat |}.

Section Tracert.

(** The process-wide [port], drawn once at start-up; the byte order of
    the host; the network's behaviour during the n-th transport call. *)
Variable port : Z.
Variable sys_byteorder : byteorder.
Variable net : nat -> ProbeEvents.

(** A transport call begins: the events that will meet it. *)
Definition next_probe : M ProbeEvents :=
  fun s => (Ret (net (clock s)), {| clock := S (clock s); next_fd := next_fd s |}, []).

(** The reverse lookup of trace_udp, lines 50-55: the name bound to
    [address_name]. *)
Definition address_name_udp (ev : ProbeEvents) (address : string) (print_errors : bool)
    : M string :=
  try_socket_error
    (h <- gethostbyaddr ev address ;;
     ret (fst (fst h)))
    (when print_errors (print LErrDNS) ;;
     ret address).

(** The reverse lookup of trace_icmp, lines 117-122. *)
Definition address_name_icmp (ev : ProbeEvents) (address : string) (print_errors : bool)
    : M string :=
  try_socket_error
    (h <- gethostbyaddr ev address ;;
     ret (fst (fst h)))
    (let address_name := address in
     when print_errors (print LErrDNS) ;;
     ret address_name).

(** ** trace_udp (lines 23-60) *)
Definition trace_udp (dest_addr : string) (ttl timeout : Z) (print_errors : bool)
    : M (string * string) :=
  ev <- next_probe ;;
  recv_socket <- socket_socket RAW_ICMP ;;
  send_socket <- socket_socket DGRAM_UDP ;;
  setsockopt_ttl send_socket ttl ;;
  sock_bind recv_socket "" 1 ;;
  ready <- try_socket_error
             (sendto ev send_socket hello dest_addr port ;;
              ready <- select_select ev recv_socket timeout ;;
              ret (Some ready))
             (when print_errors (print LErrMain) ;;
              ret None) ;;
  ready <- local_var ready ;;
  ' (address, address_name) <-
     (if is_empty (fst (fst ready)) then
        let address := "*" in
        let address_name := address in
        ret (address, address_name)
      else
        ' (_, address) <- recvfrom ev recv_socket 512 ;;
        let address := fst address in
        address_name <- address_name_udp ev address print_errors ;;
        ret (address, address_name)) ;;
  close send_socket ;;
  close recv_socket ;;
  ret (address, address_name).

(** ** trace_icmp (lines 63-124) *)
Definition trace_icmp (destination : string) (ttl timeout : Z) (print_errors : bool)
    : M (string * string) :=
  ev <- next_probe ;;
  my_socket <- socket_socket RAW_ICMP ;;
  setsockopt_ttl my_socket ttl ;;
  let id := scaled_int (ev_random ev) 32000 in
  packet <- lift (icmp_packet sys_byteorder id) ;;
  ready <- try_socket_error
             (sendto ev my_socket packet destination port ;;
              ready <- select_select ev my_socket timeout ;;
              ret (Some ready))
             (when print_errors (print LErrMain) ;;
              ret None) ;;
  ready <- local_var ready ;;
  if is_empty (fst (fst ready)) then
    close my_socket ;;
    ret ("*", "*")
  else
    ' (_, address) <- recvfrom ev my_socket 1024 ;;
    let address := fst address in
    close my_socket ;;
    address_name <- address_name_icmp ev address print_errors ;;
    ret (address, address_name).

(** ** main (lines 126-139) *)

Definition trace_funcs : list (string * transport) :=
  [("icmp", trace_icmp); ("udp", trace_udp)].

(** [d[k]] on a dict: KeyError when the key is absent. *)
Definition dict_get {V} (d : list (string * V)) (k : string) : M V :=
  match find (fun kv => String.eqb (fst kv) k) d with
  | Some kv => ret (snd kv)
  | None => raise KeyError
  end.

(** [range(a, b)] and [enumerate]. *)
Definition range (a b : Z) : list Z :=
  map (fun k => a + Z.of_nat k) (seq 0 (Z.to_nat (b - a))).

Definition enumerate {A} (l : list A) : list (Z * A) :=
  combine (map Z.of_nat (seq 0 (List.length l))) l.

(** The [for] loop of lines 130-139 over the pairs still to visit;
    [break] ends it. *)
Fixpoint main_for (todo : list (Z * Z)) (dest_ip : string) (timeout : Z)
    (t_type : string) (print_errors : bool) : M unit :=
  match todo with
  | [] => ret tt
  | (i, ttl) :: todo' =>
      trace <- dict_get trace_funcs t_type ;;
      ' (answ, answ_name) <- trace dest_ip ttl timeout print_errors ;;
      (if String.eqb answ answ_name
       then print (LHop i answ None)
       else print (LHop i answ (Some answ_name))) ;;
      if String.eqb answ dest_ip then
        print LReached
      else
        main_for todo' dest_ip timeout t_type print_errors
  end.

Definition main (dest_ip : string) (timeout max_steps : Z) (t_type : string)
    (print_errors : bool) : M unit :=
  print (LStart dest_ip t_type timeout max_steps port) ;;
  main_for (enumerate (range 1 (max_steps + 1))) dest_ip timeout t_type print_errors.

(** ** The script body (lines 141-195) *)

(** The namespace [parse_args] returns: an option left out is [None],
    [--timeout] and [--max_steps] are parsed with [type=int]. *)
Record Namespace : Type := {
  ns_destination : string;
  ns_timeout : option Z;
  ns_t_type : option string;
  ns_max_steps : option Z
}.

(** Lines 171-175.  The value is an [int] whenever it is not [None], so
    [type(args.timeout) is not int] is false. *)
Definition coerce_timeout (a : option Z) : Z :=
  match a with
  | Some t => if false || (t <? 0) then 1 else t
  | None => 1
  end.

(** Lines 177-181. *)
Definition coerce_max_steps (a : option Z) : Z :=
  match a with
  | Some n => if false || (n <? 0) then 32 else n
  | None => 32
  end.

(** Lines 183-187. *)
Definition coerce_t_type (a : option string) : string :=
  match a with
  | Some t => if negb (existsb (String.eqb t) ["icmp"; "udp"]) then "icmp" else t
  | None => "icmp"
  end.

(** How the script was started: with arguments, parsed into a
    namespace, or without, reading the destination and resolving it to
    [dest_ip]. *)
Inductive invocation : Type :=
| WithArgs (args : Namespace)
| Interactive (dest_ip : string).

(** The arguments [main] is called with; the interactive call leaves
    the defaults of [main]'s signature. *)
Record main_args : Type := {
  a_dest_ip : string;
  a_timeout : Z;
  a_max_steps : Z;
  a_t_type : string;
  a_print_errors : bool
}.

Definition script_args (inv : invocation) : main_args :=
  match inv with
  | WithArgs args =>
      {| a_dest_ip := ns_destination args;
         a_timeout := coerce_timeout (ns_timeout args);
         a_max_steps := coerce_max_steps (ns_max_steps args);
         a_t_type := coerce_t_type (ns_t_type args);
         a_print_errors := false |}
  | Interactive dest_ip =>
      {| a_dest_ip := dest_ip;
         a_timeout := 1;
         a_max_steps := 32;
         a_t_type := "icmp";
         a_print_errors := false |}
  end.

Definition script (inv : invocation) : M unit :=
  let a := script_args inv in
  main (a_dest_ip a) (a_timeout a) (a_max_steps a) (a_t_type a) (a_print_errors a).

(** What the loop needs to know of a transport. *)
Definition probe_like (tr : transport) : Prop :=
  forall dest ttl timeout pe s,
    let r := tr dest ttl timeout pe s in
    outcome r = probe_outcome ttl timeout (net (clock s)) /\
    clock (final r) = S (clock s) /\
    ttls (log r) = [ttl] /\
    hops (log r) = [] /\
    Forall (fun st => snd st = timeout) (selects (log r)).

(** What the loop needs of a transport for its lines and its sockets. *)
Definition tidy (tr : transport) : Prop :=
  forall dest ttl timeout pe s,
    let x := tr dest ttl timeout pe s in
    hops (log x) = [] /\
    trace_lines (log x) = [] /\
    (pe = false -> printed (log x) = []) /\
    (forall v, outcome x = Ret v -> leaked (log x) = []).

(** * Properties *)

(** ** Bytes and the float comparison *)

Lemma byte_val_range b : 0 <= byte_val b < 256.
Proof.
  unfold byte_val. pose proof (Byte.to_N_bounded b). lia.
Qed.

Lemma byte_val_of_Z z : byte_val (byte_of_Z z) = z mod 256.
Proof.
  unfold byte_val, byte_of_Z.
  assert (Hr : 0 <= z mod 256 < 256) by (apply Z.mod_pos_bound; lia).
  destruct (Byte.of_N (Z.to_N (z mod 256))) as [b|] eqn:E.
  - apply Byte.to_of_N in E. rewrite E. lia.
  - apply Byte.of_N_None_iff in E. lia.
Qed.

Lemma lt_int_float_count_to n s : lt_int_float n (count_to_of s) = (n <? len s).
Proof.
  unfold lt_int_float, count_to_of, Qle_bool, Qdiv, Qmult, Qinv, inject_Z. simpl.
  destruct (Z.ltb_spec n (len s)); destruct (Z.leb_spec (len s * 1 * 2 * 1) (n * 2)); simpl; try reflexivity; lia.
Qed.

Lemma lt_float_int_count_to s : lt_float_int (count_to_of s) (len s) = false.
Proof.
  unfold lt_float_int, count_to_of, Qle_bool, Qdiv, Qmult, Qinv, inject_Z. simpl.
  destruct (Z.leb_spec (len s * 2) (len s * 1 * 2 * 1)); simpl; try reflexivity; lia.
Qed.

(** ** The checksum loop *)

Lemma getitem_app_mid pre b rest :
  getitem (pre ++ b :: rest) (len pre) = Ret (byte_val b).
Proof.
  unfold getitem, len. cbv zeta.
  assert (E : (Z.of_nat (List.length pre) <? 0) = false) by (apply Z.ltb_ge; lia).
  rewrite !E, Nat2Z.id, nth_error_app2, Nat.sub_diag by lia. reflexivity.
Qed.

Lemma getitem_past s i : len s <= i -> getitem s i = Raise IndexError.
Proof.
  unfold getitem, len. intros H. cbv zeta.
  assert (E : (i <? 0) = false) by (apply Z.ltb_ge; lia).
  rewrite !E.
  destruct (nth_error s (Z.to_nat i)) eqn:En; [|reflexivity].
  assert (Hn : nth_error s (Z.to_nat i) <> None) by congruence.
  apply nth_error_Some in Hn. lia.
Qed.

Lemma checksum_while_pairs rest : forall fuel pre sum,
  (List.length rest <= fuel)%nat ->
  checksum_while fuel (pre ++ rest) (count_to_of (pre ++ rest)) (len pre) sum
  = pair_sum sum rest.
Proof.
  induction rest as [rest IH] using (induction_ltof1 _ (@List.length byte)).
  unfold ltof in IH. intros fuel pre sum Hf.
  destruct rest as [|lo [|hi rest]].
  - destruct fuel; simpl; rewrite lt_int_float_count_to; unfold len;
      rewrite app_nil_r, Z.ltb_irrefl; reflexivity.
  - destruct fuel; [simpl in Hf; lia|]. simpl.
    rewrite lt_int_float_count_to.
    replace (len pre <? len (pre ++ [lo])) with true
      by (symmetry; apply Z.ltb_lt; unfold len; rewrite length_app; simpl; lia).
    rewrite getitem_past by (unfold len; rewrite length_app; simpl; lia).
    reflexivity.
  - destruct fuel; [simpl in Hf; lia|]. simpl.
    rewrite lt_int_float_count_to.
    replace (len pre <? len (pre ++ lo :: hi :: rest)) with true
      by (symmetry; apply Z.ltb_lt; unfold len; rewrite length_app; simpl; lia).
    replace (pre ++ lo :: hi :: rest) with ((pre ++ [lo]) ++ hi :: rest) at 1
      by (rewrite <- app_assoc; reflexivity).
    replace (len pre + 1) with (len (pre ++ [lo]))
      by (unfold len; rewrite length_app; simpl; lia).
    rewrite getitem_app_mid. simpl.
    rewrite getitem_app_mid. simpl.
    replace (pre ++ lo :: hi :: rest) with ((pre ++ [lo; hi]) ++ rest)
      by (rewrite <- app_assoc; reflexivity).
    replace (len pre + 2) with (len (pre ++ [lo; hi]))
      by (unfold len; rewrite length_app; simpl; lia).
    apply IH; simpl in *; lia.
Qed.

Lemma checksum_sum_pairs s : checksum_sum s = pair_sum 0 s.
Proof.
  unfold checksum_sum.
  pose proof (@checksum_while_pairs s (List.length s) [] 0 (le_n _)) as H.
  simpl in H. change (len []) with 0 in H. rewrite H.
  unfold checksum_odd. rewrite lt_float_int_count_to.
  destruct (pair_sum 0 s); reflexivity.
Qed.

(** ** Folding and octet exchange *)

Lemma spec_fold_fits sum : sum < 65536 -> spec_fold sum = sum.
Proof.
  intros H. rewrite spec_fold_equation_1.
  destruct (Z_lt_dec sum 65536); [reflexivity | lia].
Qed.

Lemma spec_fold_carry sum : 65536 <= sum -> spec_fold sum = spec_fold (fold_once sum).
Proof.
  intros H. rewrite spec_fold_equation_1.
  destruct (Z_lt_dec sum 65536); [lia | reflexivity].
Qed.

Lemma fold_once_div_mod sum : fold_once sum = sum / 65536 + sum mod 65536.
Proof.
  unfold fold_once. change 65535 with (Z.ones 16).
  rewrite Z.land_ones, Z.shiftr_div_pow2 by lia. reflexivity.
Qed.

Lemma land_lnot_16 x : Z.land (Z.lnot x) 0xffff = (- x - 1) mod 65536.
Proof.
  change 65535 with (Z.ones 16). rewrite Z.land_ones by lia.
  unfold Z.lnot. change (2 ^ 16) with 65536. f_equal; lia.
Qed.

Lemma checksum_fold_div_mod sum :
  checksum_fold sum
  = (sum / 65536 + sum mod 65536) + (sum / 65536 + sum mod 65536) / 65536.
Proof.
  unfold checksum_fold. change 65535 with (Z.ones 16). cbv zeta.
  rewrite Z.land_ones, !Z.shiftr_div_pow2 by lia. reflexivity.
Qed.

(** On a 32-bit sum the two folds of the code and folding until the sum
    fits give the same complement. *)
Lemma two_folds_suffice sum :
  0 <= sum < 2 ^ 32 ->
  Z.land (Z.lnot (checksum_fold sum)) 0xffff = Z.land (Z.lnot (spec_fold sum)) 0xffff.
Proof.
  intros H. rewrite !land_lnot_16, checksum_fold_div_mod.
  assert (Hm : 0 <= sum mod 65536 < 65536) by (apply Z.mod_pos_bound; lia).
  assert (Hd : 0 <= sum / 65536 < 65536).
  { split; [apply Z.div_pos; lia | apply Z.div_lt_upper_bound; lia]. }
  set (s1 := sum / 65536 + sum mod 65536) in *.
  destruct (Z_lt_dec sum 65536) as [Hs|Hs].
  - rewrite spec_fold_fits by assumption.
    assert (sum / 65536 = 0) by (apply Z.div_small; lia).
    assert (sum mod 65536 = sum) by (apply Z.mod_small; lia).
    assert (E : s1 = sum) by (unfold s1; lia).
    rewrite E. replace (sum / 65536) with 0 by lia. f_equal. lia.
  - rewrite spec_fold_carry, fold_once_div_mod by lia. fold s1.
    destruct (Z_lt_dec s1 65536) as [H1|H1].
    + rewrite spec_fold_fits by assumption.
      replace (s1 / 65536) with 0 by (symmetry; apply Z.div_small; lia).
      f_equal. lia.
    + rewrite spec_fold_carry, fold_once_div_mod by lia.
      assert (Hq : s1 / 65536 = 1).
      { symmetry. apply (Z.div_unique s1 65536 1 (s1 - 65536)); lia. }
      assert (Hr : s1 mod 65536 = s1 - 65536).
      { symmetry. apply (Z.mod_unique s1 65536 1 (s1 - 65536)); lia. }
      rewrite Hq, Hr. rewrite spec_fold_fits by lia.
      replace (- (s1 + 1) - 1) with (- (1 + (s1 - 65536)) - 1 + (-1) * 65536) by lia.
      apply Z.mod_add. lia.
Qed.

(** The octet exchange of line 84 on a 16-bit value. *)
Lemma lor_disjoint hi lo : 0 <= lo < 256 -> 0 <= hi -> Z.lor lo (hi * 256) = lo + hi * 256.
Proof.
  intros Hlo Hhi. rewrite <- Z.add_lor_land.
  assert (E : Z.land lo (hi * 256) = 0).
  { apply Z.bits_inj'. intros n Hn. rewrite Z.land_spec, Z.bits_0.
    destruct (Z_lt_dec n 8).
    - change 256 with (2 ^ 8). rewrite Z.mul_pow2_bits_low by lia. apply andb_false_r.
    - rewrite (Z.bits_above_log2 lo n); [reflexivity | lia |].
      destruct (Z.eq_dec lo 0) as [->|]; [simpl; lia|].
      assert (Z.log2 lo < 8) by (apply Z.log2_lt_pow2; lia). lia. }
  rewrite E. lia.
Qed.

Lemma swap_bytes_spec x : 0 <= x < 65536 -> swap_bytes x = spec_swap x.
Proof.
  intros H. unfold swap_bytes, spec_swap.
  rewrite Z.shiftr_div_pow2, Z.shiftl_mul_pow2 by lia. change (2 ^ 8) with 256.
  assert (E : Z.land (x * 256) 65280 = (x mod 256) * 256).
  { change 65280 with (Z.shiftl (Z.ones 8) 8). change (x * 256) with (x * 2 ^ 8).
    rewrite <- (Z.shiftl_mul_pow2 x 8), <- Z.shiftl_land, Z.land_ones, Z.shiftl_mul_pow2 by lia.
    reflexivity. }
  rewrite E.
  assert (0 <= x / 256 < 256).
  { split; [apply Z.div_pos; lia | apply Z.div_lt_upper_bound; lia]. }
  assert (0 <= x mod 256 < 256) by (apply Z.mod_pos_bound; lia).
  rewrite lor_disjoint by lia. rewrite (Z.mod_small (x / 256)) by lia. lia.
Qed.

Lemma htons_little x : 0 <= x < 65536 -> htons LittleEndian x = spec_swap x.
Proof.
  intros H. unfold htons, spec_swap.
  change 255 with (Z.ones 8).
  rewrite !Z.land_ones, Z.shiftr_div_pow2, Z.shiftl_mul_pow2 by lia.
  change (2 ^ 8) with 256.
  assert (0 <= x / 256 < 256).
  { split; [apply Z.div_pos; lia | apply Z.div_lt_upper_bound; lia]. }
  assert (0 <= x mod 256 < 256) by (apply Z.mod_pos_bound; lia).
  rewrite Z.lor_comm, lor_disjoint; [lia | apply Z.mod_pos_bound; lia | lia].
Qed.

Lemma spec_swap_range x : 0 <= spec_swap x < 65536.
Proof.
  unfold spec_swap.
  assert (0 <= x mod 256 < 256) by (apply Z.mod_pos_bound; lia).
  assert (0 <= (x / 256) mod 256 < 256) by (apply Z.mod_pos_bound; lia).
  lia.
Qed.

Lemma spec_swap_involutive x : 0 <= x < 65536 -> spec_swap (spec_swap x) = x.
Proof.
  intros H. unfold spec_swap.
  assert (0 <= x / 256 < 256).
  { split; [apply Z.div_pos; lia | apply Z.div_lt_upper_bound; lia]. }
  assert (0 <= x mod 256 < 256) by (apply Z.mod_pos_bound; lia).
  rewrite (Z.mod_small (x / 256)) by lia.
  replace (x mod 256 * 256 + x / 256) with (x / 256 + (x mod 256) * 256) by lia.
  rewrite Z.mod_add, Z.div_add, (Z.mod_small (x / 256)), (Z.div_small (x / 256)) by lia.
  simpl. rewrite (Z.mod_small (x mod 256)) by lia.
  pose proof (Z.div_mod x 256 ltac:(lia)). lia.
Qed.

(** ** checksum_calc against the specification *)

Lemma pair_ind (A : Type) (P : list A -> Prop) :
  P [] -> (forall a, P [a]) -> (forall a b l, P l -> P (a :: b :: l)) ->
  forall l, P l.
Proof.
  intros H0 H1 H2.
  fix IH 1. intros [|a [|b l]]; [exact H0 | apply H1 | apply H2, IH].
Qed.

Lemma spec_word_sum_nonneg s : 0 <= spec_word_sum s.
Proof.
  induction s as [|a|a b l IH] using pair_ind; simpl.
  - lia.
  - apply byte_val_range.
  - pose proof (byte_val_range a). pose proof (byte_val_range b). lia.
Qed.

Lemma land_32_small x : 0 <= x < 2 ^ 32 -> Z.land x 0xffffffff = x.
Proof.
  intros H. change 4294967295 with (Z.ones 32).
  rewrite Z.land_ones by lia. apply Z.mod_small. lia.
Qed.

Lemma pair_sum_no_wrap s : forall sum,
  Nat.even (List.length s) = true ->
  0 <= sum -> sum + spec_word_sum s < 2 ^ 32 ->
  pair_sum sum s = Ret (sum + spec_word_sum s).
Proof.
  induction s as [|a|a b l IH] using pair_ind; intros sum Hev H0 Hlt.
  - simpl. f_equal. lia.
  - discriminate Hev.
  - cbn [pair_sum spec_word_sum] in *.
    pose proof (byte_val_range a). pose proof (byte_val_range b).
    pose proof (spec_word_sum_nonneg l).
    rewrite land_32_small by lia.
    rewrite IH; [f_equal; lia | exact Hev | lia | lia].
Qed.

Lemma pair_sum_odd s : forall sum,
  Nat.odd (List.length s) = true -> pair_sum sum s = Raise IndexError.
Proof.
  induction s as [|a|a b l IH] using pair_ind; intros sum Hodd.
  - discriminate Hodd.
  - reflexivity.
  - cbn [pair_sum]. apply IH. exact Hodd.
Qed.

Lemma pair_sum_fuel s : forall sum, pair_sum sum s <> Raise OutOfFuel.
Proof.
  induction s as [|a|a b l IH] using pair_ind; intros sum; cbn [pair_sum];
    [discriminate | discriminate | apply IH].
Qed.

(** The bounded loop never runs dry: [checksum_calc] either returns or
    raises IndexError. *)
Lemma checksum_calc_fuel s : checksum_calc s <> Raise OutOfFuel.
Proof.
  unfold checksum_calc. rewrite checksum_sum_pairs.
  pose proof (pair_sum_fuel s 0) as H.
  destruct (pair_sum 0 s); simpl; congruence.
Qed.

(** The slip of line 66: with true division [count_to] equals the
    length, so on a buffer of odd length the loop reads one byte past
    the end. *)
Lemma checksum_calc_odd_length s :
  Nat.odd (List.length s) = true -> checksum_calc s = Raise IndexError.
Proof.
  intros H. unfold checksum_calc. rewrite checksum_sum_pairs, pair_sum_odd by exact H.
  reflexivity.
Qed.

Lemma land_16_range x : 0 <= Z.land x 0xffff < 65536.
Proof.
  change 65535 with (Z.ones 16). rewrite Z.land_ones by lia.
  apply Z.mod_pos_bound. lia.
Qed.

Lemma checksum_calc_no_wrap s :
  Nat.even (List.length s) = true ->
  spec_word_sum s < 2 ^ 32 ->
  checksum_calc s = Ret (spec_checksum s).
Proof.
  intros Hev Hlt. unfold checksum_calc, spec_checksum.
  rewrite checksum_sum_pairs, pair_sum_no_wrap by (try exact Hev; lia).
  cbn [rbind]. f_equal. unfold checksum_finish. cbv zeta.
  rewrite Z.add_0_l.
  rewrite two_folds_suffice by (pose proof (spec_word_sum_nonneg s); lia).
  apply swap_bytes_spec, land_16_range.
Qed.

(** A buffer of even length sums to at most 0xFFFF per pair of bytes. *)
Lemma spec_word_sum_bound s :
  Nat.even (List.length s) = true -> 2 * spec_word_sum s <= 65535 * len s.
Proof.
  unfold len. induction s as [|a|a b l IH] using pair_ind; intros Hev.
  - cbn. lia.
  - discriminate Hev.
  - cbn [spec_word_sum List.length] in *.
    pose proof (byte_val_range a). pose proof (byte_val_range b).
    specialize (IH Hev). lia.
Qed.

(** C3, amended.  On every buffer of even length whose 16-bit words
    sum to less than 2^32 (every such buffer of at most 131074 bytes,
    the 8-byte ICMP header among them) checksum_calc returns exactly
    the value of the specification: the words [low + high * 256]
    summed, the carries folded until the sum fits 16 bits, the
    complement masked to 16 bits, its octets exchanged.  On every
    32-bit sum the two folds of lines 79-80 followed by the masked
    complement give what folding until it fits gives. *)
Theorem checksum_calc_meets_spec s :
  Nat.even (List.length s) = true ->
  spec_word_sum s < 2 ^ 32 \/ len s <= 131074 ->
  checksum_calc s = Ret (spec_checksum s) /\
  (forall sum, 0 <= sum < 2 ^ 32 ->
     Z.land (Z.lnot (checksum_fold sum)) 0xffff = Z.land (Z.lnot (spec_fold sum)) 0xffff).
Proof.
  intros Hev Hsmall. split; [|exact two_folds_suffice].
  apply checksum_calc_no_wrap; [exact Hev|].
  destruct Hsmall as [H|H]; [exact H|].
  pose proof (spec_word_sum_bound s Hev). lia.
Qed.

(** ** The echo request *)

Lemma pack_H_read_back bo v :
  0 <= v < 65536 ->
  exists lo hi, pack_H bo v = Ret [lo; hi] /\
                byte_val lo + byte_val hi * 256 = read_back bo v.
Proof.
  intros H. unfold pack_H.
  replace ((0 <=? v) && (v <=? 65535)) with true
    by (symmetry; apply andb_true_iff; split; apply Z.leb_le; lia).
  assert (0 <= v / 256 < 256).
  { split; [apply Z.div_pos; lia | apply Z.div_lt_upper_bound; lia]. }
  pose proof (Z.div_mod v 256 ltac:(lia)).
  destruct bo; do 2 eexists; (split; [reflexivity|]);
    rewrite !byte_val_of_Z; unfold read_back, spec_swap;
    rewrite (Z.mod_small (v / 256)) by lia; lia.
Qed.

Lemma read_back_range bo v : 0 <= v < 65536 -> 0 <= read_back bo v < 65536.
Proof.
  intros H. destruct bo; cbn [read_back]; [exact H | apply spec_swap_range].
Qed.

Lemma read_back_htons_swap bo a :
  0 <= a < 65536 -> read_back bo (htons bo (spec_swap a)) = a.
Proof.
  intros H. pose proof (spec_swap_range a). destruct bo; cbn [read_back].
  - rewrite htons_little by assumption. apply spec_swap_involutive, H.
  - apply spec_swap_involutive, H.
Qed.

Lemma htons_range bo x : 0 <= x < 65536 -> 0 <= htons bo x < 65536.
Proof.
  intros H. destruct bo; [rewrite htons_little by exact H; apply spec_swap_range | exact H].
Qed.

(** Adding the complement of its folded sum to a sum makes it fold to
    all ones. *)
Lemma fold_with_complement s :
  0 <= s < 2 ^ 31 ->
  Z.land (checksum_fold (s + Z.land (Z.lnot (checksum_fold s)) 0xffff)) 0xffff = 0xffff.
Proof.
  intros H. rewrite land_lnot_16.
  change 65535 with (Z.ones 16) at 1. rewrite Z.land_ones by lia.
  rewrite !checksum_fold_div_mod. change (2 ^ 16) with 65536. change (2 ^ 31) with 2147483648 in H.
  Z.div_mod_to_equations. lia.
Qed.

Lemma pack_B_ok v : 0 <= v < 256 -> pack_B v = Ret [byte_of_Z v].
Proof.
  intros H. unfold pack_B.
  replace ((0 <=? v) && (v <=? 255)) with true
    by (symmetry; apply andb_true_iff; split; apply Z.leb_le; lia).
  reflexivity.
Qed.

Lemma complement_of_all_ones F :
  Z.land F 0xffff = 0xffff -> Z.land (Z.lnot F) 0xffff = 0.
Proof.
  rewrite land_lnot_16. change 65535 with (Z.ones 16). rewrite Z.land_ones by lia.
  change (2 ^ 16) with 65536. change (Z.ones 16) with 65535.
  intros H. Z.div_mod_to_equations. lia.
Qed.

(** The echo request of lines 93-94 for any identifier that fits the
    [H] field, on either byte order. *)
Lemma icmp_packet_sums_to_ones bo id :
  0 <= id < 65536 ->
  exists pkt sum,
    icmp_packet bo id = Ret pkt /\
    List.length pkt = 8%nat /\
    getitem pkt 0 = Ret ICMP_ECHO_REQUEST /\
    getitem pkt 1 = Ret 0 /\
    checksum_sum pkt = Ret sum /\
    Z.land (checksum_fold sum) 0xffff = 0xffff /\
    checksum_calc pkt = Ret 0.
Proof.
  intros Hid.
  destruct (@pack_H_read_back bo 0 ltac:(lia)) as (l0 & h0 & P0 & R0).
  destruct (@pack_H_read_back bo id Hid) as (li & hi & Pi & Ri).
  destruct (@pack_H_read_back bo 1 ltac:(lia)) as (l1 & h1 & P1 & R1).
  assert (Rz : read_back bo 0 = 0) by (destruct bo; reflexivity).
  pose proof (@read_back_range bo id Hid) as Bi.
  pose proof (@read_back_range bo 1 ltac:(lia)) as B1.
  unfold icmp_packet, struct_pack_BBHHH, ICMP_ECHO_REQUEST.
  rewrite !pack_B_ok, P0, Pi, P1 by lia. cbn [rbind app].
  set (hdr := [byte_of_Z 8; byte_of_Z 0; l0; h0; li; hi; l1; h1]).
  assert (S0 : spec_word_sum hdr = 8 + (read_back bo id + read_back bo 1)).
  { unfold hdr. cbn [spec_word_sum]. rewrite !byte_val_of_Z, R0, Ri, R1, Rz.
    change (8 mod 256) with 8. change (0 mod 256) with 0. lia. }
  unfold checksum_calc at 1.
  rewrite checksum_sum_pairs, pair_sum_no_wrap by (try reflexivity; rewrite ?S0; lia).
  cbn [rbind]. rewrite Z.add_0_l. unfold checksum_finish. cbv zeta.
  set (a := Z.land (Z.lnot (checksum_fold (spec_word_sum hdr))) 65535).
  pose proof (land_16_range (Z.lnot (checksum_fold (spec_word_sum hdr)))) as Ba.
  fold a in Ba. rewrite swap_bytes_spec by exact Ba.
  destruct (@pack_H_read_back bo (htons bo (spec_swap a))
              (@htons_range bo _ (spec_swap_range a))) as (lc & hc & Pc & Rc).
  rewrite read_back_htons_swap in Rc by exact Ba.
  rewrite Pc. cbn [rbind app].
  set (pkt := [byte_of_Z 8; byte_of_Z 0; lc; hc; li; hi; l1; h1]).
  assert (S1 : spec_word_sum pkt = spec_word_sum hdr + a).
  { rewrite S0. unfold pkt. cbn [spec_word_sum].
    rewrite !byte_val_of_Z, Rc, Ri, R1. change (8 mod 256) with 8.
    change (0 mod 256) with 0. lia. }
  assert (Hsum : checksum_sum pkt = Ret (spec_word_sum hdr + a)).
  { rewrite checksum_sum_pairs, pair_sum_no_wrap by (try reflexivity; rewrite ?S1, ?S0; lia).
    rewrite S1. reflexivity. }
  assert (Hones : Z.land (checksum_fold (spec_word_sum hdr + a)) 65535 = 65535).
  { unfold a. apply fold_with_complement. rewrite S0. lia. }
  exists pkt, (spec_word_sum hdr + a).
  split; [reflexivity|]. split; [reflexivity|].
  split; [reflexivity|]. split; [reflexivity|].
  split; [exact Hsum|]. split; [exact Hones|].
  unfold checksum_calc. rewrite Hsum. cbn [rbind]. unfold checksum_finish. cbv zeta.
  rewrite complement_of_all_ones by exact Hones. reflexivity.
Qed.

Lemma round53_bounds p :
  0 <= p -> 0 <= round53 p /\ 2 * round53 p <= 2 * p + 2 ^ (Z.log2 p - 52).
Proof.
  intros Hp. unfold round53.
  destruct (Z.ltb_spec p (2 ^ 53)) as [Hlt|Hge].
  - pose proof (Z.pow_nonneg 2 (Z.log2 p - 52) ltac:(lia)). lia.
  - assert (He : 53 <= Z.log2 p) by (apply Z.log2_le_pow2; lia).
    cbv zeta. set (u := 2 ^ (Z.log2 p - 52)).
    assert (Hu : 0 < u) by (apply Z.pow_pos_nonneg; lia).
    pose proof (Z.div_mod p u ltac:(lia)) as Hdm.
    pose proof (Z.mod_pos_bound p u Hu) as Hr.
    assert (Hq : 0 <= p / u) by (apply Z.div_pos; lia).
    destruct ((u <? 2 * (p mod u)) || ((2 * (p mod u) =? u) && Z.odd (p / u))) eqn:Ec.
    + assert (Hur : u <= 2 * (p mod u)).
      { apply orb_true_iff in Ec. destruct Ec as [Ec|Ec].
        - apply Z.ltb_lt in Ec. lia.
        - apply andb_true_iff in Ec. destruct Ec as (Ec & _). apply Z.eqb_eq in Ec. lia. }
      split; nia.
    + split; nia.
Qed.

Lemma scaled_int_range (d : draw) n : 16384 < n <= 32768 -> 0 <= scaled_int d n < n.
Proof.
  intros Hn. unfold scaled_int. destruct d as [k Hk]. cbn [dr_k].
  apply N.ltb_lt in Hk.
  assert (Hk' : 0 <= Z.of_N k < 2 ^ 53).
  { split; [lia|]. change (2 ^ 53) with (Z.of_N (2 ^ 53)). lia. }
  set (p := Z.of_N k * n).
  assert (Hp : 0 <= p) by (unfold p; nia).
  destruct (@round53_bounds p Hp) as (H0 & H1).
  split; [apply Z.div_pos; lia|].
  apply Z.div_lt_upper_bound; [lia|].
  destruct (Z.ltb_spec p (2 ^ 53)) as [Hlt|Hge].
  - unfold round53. destruct (Z.ltb_spec p (2 ^ 53)); [|lia]. nia.
  - assert (Hl : Z.log2 p < 68).
    { apply Z.log2_lt_pow2; [lia|]. unfold p. change (2 ^ 68) with (2 ^ 53 * 32768). nia. }
    assert (Hu : 2 ^ (Z.log2 p - 52) <= 2 ^ 15) by (apply Z.pow_le_mono_r; lia).
    change (2 ^ 15) with 32768 in Hu.
    assert (Hpn : p <= (2 ^ 53 - 1) * n) by (unfold p; nia).
    lia.
Qed.


(** ** Dotted-decimal addresses

    The host string of a sender is one [gethostbyaddr] accepts: pure
    ASCII, four labels of one to three digits, no NUL. *)

Lemma decimal_numeral b : is_numeral (decimal b) = true.
Proof. destruct b; reflexivity. Qed.

Lemma is_digit_facts c :
  is_digit c = true ->
  Ascii.eqb c "." = false /\ (N_of_ascii c <? 128)%N = true /\ (N_of_ascii c =? 0)%N = false.
Proof.
  unfold is_digit. intros H. apply andb_true_iff in H. destruct H as (H1 & H2).
  apply N.leb_le in H1, H2. repeat split.
  - apply Ascii.eqb_neq. intros ->. vm_compute in H1. apply H1. reflexivity.
  - apply N.ltb_lt. lia.
  - apply N.eqb_neq. lia.
Qed.

Lemma is_ascii_app (a b : string) : is_ascii (a ++ b) = is_ascii a && is_ascii b.
Proof.
  unfold is_ascii. induction a as [|c a IH]; [reflexivity|].
  cbn [append list_ascii_of_string forallb]. rewrite IH. apply andb_assoc.
Qed.

Lemma has_nul_app (a b : string) : has_nul (a ++ b) = has_nul a || has_nul b.
Proof.
  unfold has_nul. induction a as [|c a IH]; [reflexivity|].
  cbn [append list_ascii_of_string existsb]. rewrite IH. apply orb_assoc.
Qed.

Lemma digits_plain (s : string) :
  forallb is_digit (list_ascii_of_string s) = true ->
  is_ascii s = true /\ has_nul s = false.
Proof.
  unfold is_ascii, has_nul. induction s as [|c s IH]; [split; reflexivity|].
  cbn [list_ascii_of_string forallb existsb]. intros H.
  apply andb_true_iff in H. destruct H as (Hc & Hs).
  destruct (@is_digit_facts c Hc) as (_ & H1 & H2). destruct (IH Hs) as (IH1 & IH2).
  rewrite H1, H2, IH1, IH2. split; reflexivity.
Qed.

Lemma labels_ok_digits (s : string) : forall (rest : string) n,
  forallb is_digit (list_ascii_of_string s) = true ->
  labels_ok (s ++ rest) n = labels_ok rest (n + String.length s).
Proof.
  induction s as [|c s IH]; intros rest n H.
  - cbn [append String.length]. rewrite Nat.add_0_r. reflexivity.
  - cbn [list_ascii_of_string forallb] in H. apply andb_true_iff in H. destruct H as (Hc & Hs).
    destruct (@is_digit_facts c Hc) as (Hdot & _).
    cbn [append labels_ok String.length]. rewrite Hdot, IH by exact Hs.
    f_equal. lia.
Qed.

Lemma labels_ok_last (s : string) : forall n,
  forallb is_digit (list_ascii_of_string s) = true ->
  labels_ok s n = (n + String.length s <? 64)%nat.
Proof.
  induction s as [|c s IH]; intros n H.
  - cbn [labels_ok String.length]. rewrite Nat.add_0_r. reflexivity.
  - cbn [list_ascii_of_string forallb] in H. apply andb_true_iff in H. destruct H as (Hc & Hs).
    destruct (@is_digit_facts c Hc) as (Hdot & _).
    cbn [labels_ok String.length]. rewrite Hdot, IH by exact Hs.
    f_equal. lia.
Qed.

Lemma is_numeral_facts (s : string) :
  is_numeral s = true ->
  (1 <= String.length s <= 3)%nat /\ forallb is_digit (list_ascii_of_string s) = true.
Proof.
  unfold is_numeral. intros H.
  apply andb_true_iff in H. destruct H as (H & H3).
  apply andb_true_iff in H. destruct H as (H1 & H2).
  apply Nat.leb_le in H1, H2. auto.
Qed.

Lemma host_check_numerals idna (a b c d : string) :
  is_numeral a = true -> is_numeral b = true ->
  is_numeral c = true -> is_numeral d = true ->
  host_check idna (a ++ "." ++ b ++ "." ++ c ++ "." ++ d) = None
  /\ (a ++ "." ++ b ++ "." ++ c ++ "." ++ d)%string <> ""%string.
Proof.
  intros Ha Hb Hc Hd.
  destruct (@is_numeral_facts a Ha) as (La & Da). destruct (@is_numeral_facts b Hb) as (Lb & Db).
  destruct (@is_numeral_facts c Hc) as (Lc & Dc). destruct (@is_numeral_facts d Hd) as (Ld & Dd).
  destruct (@digits_plain a Da) as (Aa & Na). destruct (@digits_plain b Db) as (Ab & Nb).
  destruct (@digits_plain c Dc) as (Ac & Nc). destruct (@digits_plain d Dd) as (Ad & Nd).
  assert (Hlt : forall n, (1 <= n <= 3)%nat -> ((0 <? 0 + n)%nat && (0 + n <? 64)%nat) = true).
  { intros n Hn. apply andb_true_iff. split; [apply Nat.ltb_lt | apply Nat.ltb_lt]; lia. }
  split.
  - unfold host_check.
    rewrite !is_ascii_app, !has_nul_app, Aa, Ab, Ac, Ad, Na, Nb, Nc, Nd.
    change (is_ascii ".") with true. change (has_nul ".") with false. cbn [andb orb].
    rewrite (@labels_ok_digits a _ 0%nat Da). cbn [append labels_ok]. change (Ascii.eqb "." ".") with true.
    cbv iota. rewrite (Hlt _ La). cbn [andb].
    rewrite (@labels_ok_digits b _ 0%nat Db). cbn [append labels_ok]. change (Ascii.eqb "." ".") with true.
    cbv iota. rewrite (Hlt _ Lb). cbn [andb].
    rewrite (@labels_ok_digits c _ 0%nat Dc). cbn [append labels_ok]. change (Ascii.eqb "." ".") with true.
    cbv iota. rewrite (Hlt _ Lc). cbn [andb].
    rewrite (@labels_ok_last d 0%nat Dd).
    replace (0 + String.length d <? 64)%nat with true by (symmetry; apply Nat.ltb_lt; lia).
    reflexivity.
  - destruct a as [|x a]; [cbn in La; lia | discriminate].
Qed.

Lemma host_check_dotted idna (a : ipv4) : host_check idna (dotted a) = None.
Proof.
  unfold dotted. apply host_check_numerals; apply decimal_numeral.
Qed.


(** ** The transports *)

Lemma icmp_packet_returns (d : draw) :
  exists pkt, icmp_packet sys_byteorder (scaled_int d 32000) = Ret pkt.
Proof.
  pose proof (@scaled_int_range d 32000 ltac:(lia)) as Hid.
  destruct (@icmp_packet_sums_to_ones sys_byteorder (scaled_int d 32000) ltac:(lia))
    as (pkt & _ & E & _).
  exists pkt. exact E.
Qed.

Lemma setsockopt_check_cases ttl :
  setsockopt_check ttl = None \/ setsockopt_check ttl = Some SocketError \/
  setsockopt_check ttl = Some TypeError.
Proof.
  unfold setsockopt_check.
  destruct ((ttl <? - 2 ^ 31) || (2 ^ 31 - 1 <? ttl)); [auto|].
  destruct (((1 <=? ttl) && (ttl <=? 255)) || (ttl =? -1)); auto.
Qed.

Lemma select_check_cases timeout :
  select_check timeout = None \/ select_check timeout = Some ValueError \/
  select_check timeout = Some OverflowError.
Proof.
  unfold select_check.
  destruct ((timeout <? - 9223372036) || (9223372036 <? timeout)); [auto|].
  destruct (timeout <? 0); auto.
Qed.

Lemma setsockopt_check_none ttl :
  setsockopt_check ttl = None <-> 1 <= ttl <= 255 \/ ttl = -1.
Proof.
  unfold setsockopt_check.
  destruct (Z.ltb_spec ttl (- 2 ^ 31)); destruct (Z.ltb_spec (2 ^ 31 - 1) ttl);
    destruct (Z.leb_spec 1 ttl); destruct (Z.leb_spec ttl 255); destruct (Z.eqb_spec ttl (-1));
    cbn [orb andb]; split; intros Hx; try discriminate; try reflexivity; lia.
Qed.

Lemma select_check_none timeout :
  select_check timeout = None <-> 0 <= timeout <= 9223372036.
Proof.
  unfold select_check.
  destruct (Z.ltb_spec timeout (- 9223372036)); destruct (Z.ltb_spec 9223372036 timeout);
    destruct (Z.ltb_spec timeout 0);
    cbn [orb]; split; intros Hx; try discriminate; try reflexivity; lia.
Qed.

Arguments dotted : simpl never.
Arguments host_check : simpl never.
Arguments setsockopt_check : simpl never.
Arguments select_check : simpl never.

Ltac unfold_calls :=
  unfold trace_udp, trace_icmp, address_name_udp, address_name_icmp,
    outcome, final, log, probe_outcome, resolve;
  unfold bind, next_probe, socket_socket, setsockopt_ttl, sock_bind, sendto,
    select_select, recvfrom, gethostbyaddr, close, try_socket_error, local_var,
    when, print, emit, lift, ret, raise, bind.

(** The paths of a transport call: the hop limit refused; else [sendto]
    raising; else the time-out refused; else what [select], [recvfrom]
    and the lookup do. *)
Ltac case_events ttl timeout ev :=
  destruct (setsockopt_check ttl) as [e0|];
  [ | destruct ev as [rnd snd sel rcv dns idna];
      cbn [ev_random ev_send ev_select ev_recv ev_dns ev_idna];
      destruct snd;
      [ let Hc := fresh "Hc" in
        destruct (select_check_cases timeout) as [Hc|[Hc|Hc]]; rewrite ?Hc;
        [ destruct sel as [[|]|];
          [ destruct rcv as [[data [a p]]|];
            [ cbn; rewrite ?host_check_dotted;
              destruct (dns (dotted a)) as [[[name al] ad]|]
            | ]
          | | ]
        | | ]
      | ] ].

Lemma trace_udp_outcome dest ttl timeout pe s :
  outcome (trace_udp dest ttl timeout pe s) = probe_outcome ttl timeout (net (clock s)).
Proof.
  unfold_calls. cbn [clock next_fd].
  case_events ttl timeout (net (clock s)); destruct pe; reflexivity.
Qed.

Lemma trace_icmp_outcome dest ttl timeout pe s :
  outcome (trace_icmp dest ttl timeout pe s)
  = probe_outcome ttl timeout (net (clock s)).
Proof.
  unfold_calls. cbn [clock next_fd].
  destruct (icmp_packet_returns (ev_random (net (clock s)))) as [pkt E]. rewrite E.
  case_events ttl timeout (net (clock s)); destruct pe; reflexivity.
Qed.

Lemma trace_udp_clock dest ttl timeout pe s :
  clock (final (trace_udp dest ttl timeout pe s)) = S (clock s).
Proof.
  unfold_calls. cbn [clock next_fd].
  case_events ttl timeout (net (clock s)); destruct pe; reflexivity.
Qed.

Lemma trace_icmp_clock dest ttl timeout pe s :
  clock (final (trace_icmp dest ttl timeout pe s)) = S (clock s).
Proof.
  unfold_calls. cbn [clock next_fd].
  destruct (icmp_packet_returns (ev_random (net (clock s)))) as [pkt E]. rewrite E.
  case_events ttl timeout (net (clock s)); destruct pe; reflexivity.
Qed.

(** The hop limit is logged whether [setsockopt] takes it or not. *)
Lemma trace_udp_ttls dest ttl timeout pe s :
  ttls (log (trace_udp dest ttl timeout pe s)) = [ttl].
Proof.
  unfold_calls. cbn [clock next_fd].
  case_events ttl timeout (net (clock s)); destruct pe; reflexivity.
Qed.

Lemma trace_icmp_ttls dest ttl timeout pe s :
  ttls (log (trace_icmp dest ttl timeout pe s)) = [ttl].
Proof.
  unfold_calls. cbn [clock next_fd].
  destruct (icmp_packet_returns (ev_random (net (clock s)))) as [pkt E]. rewrite E.
  case_events ttl timeout (net (clock s)); destruct pe; reflexivity.
Qed.

Lemma trace_udp_hops dest ttl timeout pe s :
  hops (log (trace_udp dest ttl timeout pe s)) = [].
Proof.
  unfold_calls. cbn [clock next_fd].
  case_events ttl timeout (net (clock s)); destruct pe; reflexivity.
Qed.

Lemma trace_icmp_hops dest ttl timeout pe s :
  hops (log (trace_icmp dest ttl timeout pe s)) = [].
Proof.
  unfold_calls. cbn [clock next_fd].
  destruct (icmp_packet_returns (ev_random (net (clock s)))) as [pkt E]. rewrite E.
  case_events ttl timeout (net (clock s)); destruct pe; reflexivity.
Qed.

Lemma trace_udp_selects dest ttl timeout pe s :
  Forall (fun st => snd st = timeout) (selects (log (trace_udp dest ttl timeout pe s))).
Proof.
  unfold_calls. cbn [clock next_fd].
  case_events ttl timeout (net (clock s)); destruct pe; cbn; repeat constructor.
Qed.

Lemma trace_icmp_selects dest ttl timeout pe s :
  Forall (fun st => snd st = timeout)
         (selects (log (trace_icmp dest ttl timeout pe s))).
Proof.
  unfold_calls. cbn [clock next_fd].
  destruct (icmp_packet_returns (ev_random (net (clock s)))) as [pkt E]. rewrite E.
  case_events ttl timeout (net (clock s)); destruct pe; cbn; repeat constructor.
Qed.

Lemma trace_udp_leaks dest ttl timeout pe s :
  let r := trace_udp dest ttl timeout pe s in
  match outcome r with
  | Ret _ => leaked (log r) = []
  | Raise _ => leaked (log r) = [next_fd s; S (next_fd s)]
  end.
Proof.
  unfold_calls. cbn [clock next_fd]. unfold leaked.
  assert (Hn : forall n, Nat.eqb n (S n) = false) by (intros n; apply Nat.eqb_neq; lia).
  assert (Hm : forall n, Nat.eqb (S n) n = false) by (intros n; apply Nat.eqb_neq; lia).
  case_events ttl timeout (net (clock s)); destruct pe; cbn;
    rewrite ?Nat.eqb_refl, ?Hn, ?Hm; cbn; reflexivity.
Qed.

Lemma trace_icmp_leaks dest ttl timeout pe s :
  let r := trace_icmp dest ttl timeout pe s in
  match outcome r with
  | Ret _ => leaked (log r) = []
  | Raise _ => leaked (log r) = [next_fd s]
  end.
Proof.
  unfold_calls. cbn [clock next_fd]. unfold leaked.
  destruct (icmp_packet_returns (ev_random (net (clock s)))) as [pkt E]. rewrite E.
  case_events ttl timeout (net (clock s)); destruct pe; cbn; rewrite ?Nat.eqb_refl; cbn;
    reflexivity.
Qed.

Lemma trace_udp_recv_sizes dest ttl timeout pe s :
  Forall (fun n => n = 512) (recv_sizes (log (trace_udp dest ttl timeout pe s))).
Proof.
  unfold_calls. cbn [clock next_fd].
  case_events ttl timeout (net (clock s)); destruct pe; cbn; repeat constructor.
Qed.

Lemma trace_icmp_recv_sizes dest ttl timeout pe s :
  Forall (fun n => n = 1024)
         (recv_sizes (log (trace_icmp dest ttl timeout pe s))).
Proof.
  unfold_calls. cbn [clock next_fd].
  destruct (icmp_packet_returns (ev_random (net (clock s)))) as [pkt E]. rewrite E.
  case_events ttl timeout (net (clock s)); destruct pe; cbn; repeat constructor.
Qed.

(** What the log shows when [sendto] raises: the handler's line when
    asked for, and no [select]. *)
Lemma trace_udp_send_error dest ttl timeout pe s :
  setsockopt_check ttl = None ->
  ev_send (net (clock s)) = false ->
  let r := trace_udp dest ttl timeout pe s in
  selects (log r) = [] /\ printed (log r) = (if pe then [LErrMain] else []).
Proof.
  unfold_calls. cbn [clock next_fd]. intros ->.
  destruct (net (clock s)) as [rnd snd sel rcv dns idna].
  cbn [ev_send ev_select ev_recv ev_dns].
  intros ->. destruct pe; split; reflexivity.
Qed.

Lemma trace_icmp_send_error dest ttl timeout pe s :
  setsockopt_check ttl = None ->
  ev_send (net (clock s)) = false ->
  let r := trace_icmp dest ttl timeout pe s in
  selects (log r) = [] /\ printed (log r) = (if pe then [LErrMain] else []).
Proof.
  unfold_calls. cbn [clock next_fd]. intros ->.
  destruct (icmp_packet_returns (ev_random (net (clock s)))) as [pkt E]. rewrite E.
  destruct (net (clock s)) as [rnd snd sel rcv dns idna].
  cbn [ev_send ev_select ev_recv ev_dns].
  intros ->. destruct pe; split; reflexivity.
Qed.

(** The transports of [trace_funcs] are these two. *)
Lemma trace_funcs_cases name (tr : transport) :
  In (name, tr) trace_funcs ->
  tr = trace_icmp \/ tr = trace_udp.
Proof.
  unfold trace_funcs. cbn [In]. intros [H|[H|[]]]; inversion H; auto.
Qed.

(** ** The sweep *)

Lemma ttls_app l1 l2 : ttls (l1 ++ l2) = ttls l1 ++ ttls l2.
Proof. apply flat_map_app. Qed.

Lemma hops_app l1 l2 : hops (l1 ++ l2) = hops l1 ++ hops l2.
Proof. apply flat_map_app. Qed.

Lemma selects_app l1 l2 : selects (l1 ++ l2) = selects l1 ++ selects l2.
Proof. apply flat_map_app. Qed.

Lemma printed_app l1 l2 : printed (l1 ++ l2) = printed l1 ++ printed l2.
Proof. apply flat_map_app. Qed.

Lemma range_enumerate max_steps :
  enumerate (range 1 (max_steps + 1)) = steps 0 (Z.to_nat max_steps).
Proof.
  unfold enumerate, range, steps.
  replace (max_steps + 1 - 1) with max_steps by lia.
  rewrite length_map, length_seq.
  generalize (Z.to_nat max_steps) as n. intros n.
  generalize 0%nat as i0.
  induction n as [|n IH]; intros i0; [reflexivity|].
  cbn [seq map combine]. f_equal.
  - f_equal. lia.
  - apply IH.
Qed.

Lemma trace_icmp_probe_like : probe_like (trace_icmp).
Proof.
  intros dest ttl timeout pe s. cbv zeta.
  repeat split.
  - apply trace_icmp_outcome.
  - apply trace_icmp_clock.
  - apply trace_icmp_ttls.
  - apply trace_icmp_hops.
  - apply trace_icmp_selects.
Qed.

Lemma trace_udp_probe_like : probe_like (trace_udp).
Proof.
  intros dest ttl timeout pe s. cbv zeta.
  repeat split.
  - apply trace_udp_outcome.
  - apply trace_udp_clock.
  - apply trace_udp_ttls.
  - apply trace_udp_hops.
  - apply trace_udp_selects.
Qed.

(** [trace_funcs[t_type]]. *)
Lemma dict_get_trace_funcs t_type :
  (exists tr, dict_get trace_funcs t_type = ret tr /\ probe_like tr /\
              (t_type = "icmp" \/ t_type = "udp")) \/
  (dict_get trace_funcs t_type = raise KeyError /\ t_type <> "icmp" /\ t_type <> "udp").
Proof.
  unfold dict_get, trace_funcs. cbn [find fst snd].
  destruct (String.eqb_spec "icmp" t_type) as [E1|N1].
  - left. eexists. split; [reflexivity|]. split; [apply trace_icmp_probe_like | auto].
  - destruct (String.eqb_spec "udp" t_type) as [E2|N2].
    + left. eexists. split; [reflexivity|]. split; [apply trace_udp_probe_like | auto].
    + right. split; [reflexivity|]. split; congruence.
Qed.

Lemma hops_hop_line i r : hops [hop_line i r] = [hop i r].
Proof.
  unfold hop_line, hop. destruct r as [a n]. cbn [fst snd hops flat_map app].
  destruct (String.eqb_spec a n) as [->|]; reflexivity.
Qed.

(** One turn of the loop. *)
Lemma main_for_step tr i ttl todo dest timeout t_type pe s :
  dict_get trace_funcs t_type = ret tr ->
  main_for ((i, ttl) :: todo) dest timeout t_type pe s
  = let x := tr dest ttl timeout pe s in
    match outcome x with
    | Ret r =>
        if String.eqb (fst r) dest
        then (Ret tt, final x, log x ++ [hop_line i r; Stdout LReached])
        else let y := main_for todo dest timeout t_type pe (final x) in
             (outcome y, final y, log x ++ hop_line i r :: log y)
    | Raise e => (Raise e, final x, log x)
    end.
Proof.
  intros Hd. cbn [main_for]. rewrite Hd.
  unfold bind at 1. unfold ret at 1. cbn [app].
  unfold bind at 1. unfold outcome, final, log, hop_line. cbv zeta.
  destruct (tr dest ttl timeout pe s) as [[[[a n]|e] s1] l1]; cbn [fst snd]; [|reflexivity].
  unfold bind, print, emit.
  destruct (String.eqb a n), (String.eqb a dest); cbn [app];
    try (destruct (main_for todo dest timeout t_type pe s1)
           as [[r2 s2] l2]; cbn [fst snd]);
    rewrite ?app_nil_r; rewrite <- ?app_assoc; reflexivity.
Qed.

Lemma main_for_key_error x todo dest timeout t_type pe s :
  dict_get trace_funcs t_type = raise KeyError ->
  main_for (x :: todo) dest timeout t_type pe s = (Raise KeyError, s, []).
Proof.
  intros Hd. destruct x as [i ttl]. cbn [main_for]. rewrite Hd. reflexivity.
Qed.

Lemma outcome_mk A (r : result A) s l : outcome (r, s, l) = r.
Proof. reflexivity. Qed.

Lemma final_mk A (r : result A) s l : final (r, s, l) = s.
Proof. reflexivity. Qed.

Lemma log_mk A (r : result A) s l : log (r, s, l) = l.
Proof. reflexivity. Qed.

(** The loop against [sweep]: the records it emits, how it ends, the
    hop limits it sets and the transport calls it makes. *)
Lemma main_for_views tr dest timeout t_type pe :
  dict_get trace_funcs t_type = ret tr -> probe_like tr ->
  forall todo s,
    let r := main_for todo dest timeout t_type pe s in
    let sw := sweep net dest timeout todo (clock s) in
    hops (log r) = fst sw /\
    outcome r = match snd sw with None => Ret tt | Some e => Raise e end /\
    ttls (log r) = map snd (firstn (calls sw) todo) /\
    clock (final r) = (clock s + calls sw)%nat /\
    Forall (fun st => snd st = timeout) (selects (log r)).
Proof.
  intros Hd Htr todo. induction todo as [|[i ttl] todo IH]; intros s; cbv zeta.
  - cbn. repeat split; try reflexivity; try lia. constructor.
  - rewrite (@main_for_step tr i ttl todo dest timeout t_type pe s Hd). cbv zeta.
    destruct (Htr dest ttl timeout pe s) as (Ho & Hc & Ht & Hh & Hs).
    set (x := tr dest ttl timeout pe s) in *.
    cbn [sweep]. rewrite Ho.
    destruct (probe_outcome ttl timeout (net (clock s))) as [r|e].
    + destruct (String.eqb (fst r) dest).
      * change [hop_line i r; Stdout LReached] with ([hop_line i r] ++ [Stdout LReached]).
        rewrite outcome_mk, final_mk, log_mk, !hops_app, !ttls_app, !selects_app, Hh, Ht, Hc.
        rewrite hops_hop_line. unfold calls, hop_line. cbn.
        rewrite app_nil_r.
        repeat split; try reflexivity; try lia. exact Hs.
      * specialize (IH (final x)). cbv zeta in IH. rewrite Hc in IH.
        destruct IH as (IHh & IHo & IHt & IHc & IHs).
        destruct (sweep net dest timeout todo (S (clock s))) as [hs e] eqn:Esw.
        rewrite outcome_mk, final_mk, log_mk, hops_app, ttls_app, selects_app, Hh, Ht.
        change (hop_line i r :: ?l) with ([hop_line i r] ++ l).
        rewrite hops_app, hops_hop_line, ttls_app, selects_app, IHh, IHo, IHt, IHc.
        unfold calls in *. cbn [fst snd app List.length firstn map selects ttls flat_map hop_line Nat.add].
        repeat split; try reflexivity; try lia.
        apply Forall_app. split; assumption.
    + rewrite outcome_mk, final_mk, log_mk, Hh, Ht, Hc. unfold calls.
      cbn [fst snd List.length firstn map Nat.add].
      repeat split; try assumption; try reflexivity. lia.
Qed.

Section SweepFacts.

Variable dest : string.
Variable timeout : Z.

Lemma steps_S i0 n :
  steps i0 (S n) = (Z.of_nat i0, Z.of_nat (S i0)) :: steps (S i0) n.
Proof. reflexivity. Qed.

Lemma steps_ttls i0 n m :
  (m <= n)%nat -> map snd (firstn m (steps i0 n)) = map Z.of_nat (seq (S i0) m).
Proof.
  revert i0 m. induction n as [|n IH]; intros i0 m Hm.
  - replace m with 0%nat by lia. reflexivity.
  - destruct m as [|m]; [reflexivity|].
    rewrite steps_S. cbn [firstn map snd seq]. f_equal. apply IH. lia.
Qed.

Lemma sweep_calls_le n : forall i0 k, (calls (sweep net dest timeout (steps i0 n) k) <= n)%nat.
Proof.
  induction n as [|n IH]; intros i0 k; [cbn; lia|].
  rewrite steps_S. cbn [sweep].
  destruct (probe_outcome (Z.of_nat (S i0)) timeout (net k)) as [r|e]; [|cbn; lia].
  destruct (String.eqb (fst r) dest); [cbn; lia|].
  specialize (IH (S i0) (S k)).
  destruct (sweep net dest timeout (steps (S i0) n) (S k)) as [hs e].
  unfold calls in *. cbn [fst snd List.length] in *. lia.
Qed.

Lemma sweep_indices n : forall i0 k,
  map hop_index (fst (sweep net dest timeout (steps i0 n) k))
  = map Z.of_nat (seq i0 (List.length (fst (sweep net dest timeout (steps i0 n) k)))).
Proof.
  induction n as [|n IH]; intros i0 k; [reflexivity|].
  rewrite steps_S. cbn [sweep].
  destruct (probe_outcome (Z.of_nat (S i0)) timeout (net k)) as [r|e]; [|reflexivity].
  destruct (String.eqb (fst r) dest); [reflexivity|].
  specialize (IH (S i0) (S k)).
  destruct (sweep net dest timeout (steps (S i0) n) (S k)) as [hs e].
  cbn [fst List.length map seq hop hop_index] in *. f_equal. exact IH.
Qed.

(** Every record is the outcome of the call it stands for, and only the
    last one can carry the destination. *)
Lemma sweep_nth n : forall i0 k j h,
  nth_error (fst (sweep net dest timeout (steps i0 n) k)) j = Some h ->
  hop_index h = Z.of_nat (i0 + j) /\
  probe_outcome (Z.of_nat (S (i0 + j))) timeout (net (k + j))
  = Ret (hop_address h, hop_name h) /\
  ((S j < List.length (fst (sweep net dest timeout (steps i0 n) k)))%nat -> hop_address h <> dest).
Proof.
  induction n as [|n IH]; intros i0 k j h.
  - destruct j; discriminate.
  - rewrite steps_S. cbn [sweep].
    destruct (probe_outcome (Z.of_nat (S i0)) timeout (net k)) as [r|e] eqn:Eo; [|destruct j; discriminate].
    destruct (String.eqb_spec (fst r) dest) as [Ed|Nd].
    + destruct j as [|[|j]]; cbn [fst nth_error]; try discriminate.
      intros [= <-]. rewrite !Nat.add_0_r. cbn [hop hop_index hop_address hop_name List.length].
      destruct r; repeat split; [exact Eo | lia].
    + specialize (IH (S i0) (S k)).
      destruct (sweep net dest timeout (steps (S i0) n) (S k)) as [hs e].
      cbn [fst] in *. destruct j as [|j]; cbn [nth_error List.length].
      * intros [= <-]. rewrite !Nat.add_0_r. cbn [hop hop_index hop_address hop_name].
        destruct r; repeat split; [exact Eo | intros _; exact Nd].
      * intros Hj. destruct (IH j h Hj) as (Hi & Ho & Hl).
        replace (i0 + S j)%nat with (S i0 + j)%nat by lia.
        replace (k + S j)%nat with (S k + j)%nat by lia.
        repeat split; [exact Hi | exact Ho | intros; apply Hl; lia].
Qed.

(** A sweep that ends before its last step, and not by an exception,
    ends on the destination. *)
Lemma sweep_short n : forall i0 k,
  let sw := sweep net dest timeout (steps i0 n) k in
  snd sw = None -> (List.length (fst sw) < n)%nat ->
  exists h, nth_error (fst sw) (List.length (fst sw) - 1) = Some h /\ hop_address h = dest.
Proof.
  induction n as [|n IH]; intros i0 k; cbv zeta; [cbn; lia|].
  rewrite steps_S. cbn [sweep].
  destruct (probe_outcome (Z.of_nat (S i0)) timeout (net k)) as [r|e] eqn:Eo; [|discriminate].
  destruct (String.eqb_spec (fst r) dest) as [Ed|Nd].
  - intros _ _. exists (hop (Z.of_nat i0) r). split; [reflexivity | exact Ed].
  - specialize (IH (S i0) (S k)). cbv zeta in IH.
    destruct (sweep net dest timeout (steps (S i0) n) (S k)) as [hs e].
    cbn [fst snd List.length] in *. intros He Hl.
    destruct (IH He ltac:(lia)) as (h & Hn & Hd).
    exists h. split; [|exact Hd].
    destruct hs as [|h0 hs]; [destruct n; cbn in Hn; discriminate|].
    cbn [List.length] in *.
    replace (S (S (List.length hs)) - 1)%nat with (S (S (List.length hs) - 1)) by lia.
    cbn [nth_error]. exact Hn.
Qed.

(** A call that is made and returns leaves its record; unless it
    carries the destination or was the last step, the next call is made. *)
Lemma sweep_continues n : forall i0 k j r,
  let sw := sweep net dest timeout (steps i0 n) k in
  (j < calls sw)%nat ->
  probe_outcome (Z.of_nat (S (i0 + j))) timeout (net (k + j)) = Ret r ->
  nth_error (fst sw) j = Some (hop (Z.of_nat (i0 + j)) r) /\
  (fst r <> dest -> (S j < n)%nat -> (S j < calls sw)%nat).
Proof.
  induction n as [|n IH]; intros i0 k j r; cbv zeta; [cbn; lia|].
  rewrite steps_S. cbn [sweep].
  destruct (probe_outcome (Z.of_nat (S i0)) timeout (net k)) as [r0|e] eqn:Eo.
  - destruct (String.eqb_spec (fst r0) dest) as [Ed|Nd].
    + unfold calls. cbn [fst snd List.length]. intros Hj Ho.
      assert (j = 0)%nat by lia. subst j. rewrite !Nat.add_0_r in *.
      rewrite Eo in Ho. injection Ho as ->.
      split; [reflexivity | intros Hn; contradiction].
    + specialize (IH (S i0) (S k)). cbv zeta in IH.
      destruct (sweep net dest timeout (steps (S i0) n) (S k)) as [hs e] eqn:Esw.
      unfold calls in *. cbn [fst snd List.length] in *. intros Hj Ho.
      destruct j as [|j].
      * rewrite !Nat.add_0_r in *. rewrite Eo in Ho. injection Ho as ->.
        split; [reflexivity|]. intros _ Hn.
        destruct n as [|n]; [lia|]. rewrite steps_S in Esw. cbn [sweep] in Esw.
        destruct (probe_outcome (Z.of_nat (S (S i0))) timeout (net (S k))) as [r1|e1].
        -- destruct (String.eqb (fst r1) dest).
           ++ injection Esw as <- <-. cbn. lia.
           ++ destruct (sweep net dest timeout (steps (S (S i0)) n) (S (S k))) as [hs' e'].
              injection Esw as <- <-. cbn. lia.
        -- injection Esw as <- <-. cbn. lia.
      * replace (k + S j)%nat with (S k + j)%nat in Ho by lia.
        replace (i0 + S j)%nat with (S i0 + j)%nat in Ho by lia.
        destruct (IH j r ltac:(lia) Ho) as (Hn & Hc).
        replace (i0 + S j)%nat with (S i0 + j)%nat by lia.
        split; [exact Hn|]. intros Hd Hlt. specialize (Hc Hd ltac:(lia)). lia.
  - unfold calls. cbn [fst snd List.length]. intros Hj Ho.
    assert (j = 0)%nat by lia. subst j. rewrite !Nat.add_0_r in Ho. congruence.
Qed.

(** The exception that ends a sweep is the one some transport call
    raised. *)
Lemma sweep_error_is_probe_error n : forall i0 k,
  match snd (sweep net dest timeout (steps i0 n) k) with
  | Some e => exists ttl j, probe_outcome ttl timeout (net j) = Raise e
  | None => True
  end.
Proof.
  induction n as [|n IH]; intros i0 k; [exact I|].
  rewrite steps_S. cbn [sweep].
  destruct (probe_outcome (Z.of_nat (S i0)) timeout (net k)) as [r|e] eqn:Eo; [|exists (Z.of_nat (S i0)), k; exact Eo].
  destruct (String.eqb (fst r) dest); [exact I|].
  specialize (IH (S i0) (S k)).
  destruct (sweep net dest timeout (steps (S i0) n) (S k)) as [hs e]. exact IH.
Qed.

End SweepFacts.

(** The exceptions of a transport call: those of [setsockopt] and
    [select] on a refused argument, socket.error from [recvfrom], and
    UnboundLocalError. *)
Lemma probe_outcome_raises ttl timeout ev e :
  probe_outcome ttl timeout ev = Raise e ->
  e = UnboundLocalError \/ e = SocketError \/ e = TypeError \/
  e = ValueError \/ e = OverflowError.
Proof.
  unfold probe_outcome.
  destruct (setsockopt_check_cases ttl) as [Hc|[Hc|Hc]]; rewrite Hc;
    [|intros [= <-]; auto|intros [= <-]; auto].
  destruct (ev_send ev); [|intros [= <-]; auto].
  destruct (select_check_cases timeout) as [Hd|[Hd|Hd]]; rewrite Hd;
    [|intros [= <-]; auto 6|intros [= <-]; auto 6].
  destruct (ev_select ev) as [[|]|]; try discriminate; [|intros [= <-]; auto].
  destruct (ev_recv ev) as [[data sender]|]; [discriminate | intros [= <-]; auto].
Qed.

Lemma probe_outcome_not_key_error ttl timeout ev :
  probe_outcome ttl timeout ev <> Raise KeyError.
Proof.
  intros H. apply probe_outcome_raises in H.
  destruct H as [H|[H|[H|[H|H]]]]; discriminate.
Qed.

Lemma probe_outcome_not_value_error ttl timeout ev :
  0 <= timeout -> probe_outcome ttl timeout ev <> Raise ValueError.
Proof.
  intros Hpos. unfold probe_outcome.
  destruct (setsockopt_check_cases ttl) as [Hc|[Hc|Hc]]; rewrite Hc; try discriminate.
  destruct (ev_send ev); [|discriminate].
  assert (Hd : select_check timeout = None \/ select_check timeout = Some OverflowError).
  { unfold select_check.
    destruct ((timeout <? - 9223372036) || (9223372036 <? timeout)); [auto|].
    destruct (Z.ltb_spec timeout 0); [lia | auto]. }
  destruct Hd as [Hd|Hd]; rewrite Hd; [|discriminate].
  destruct (ev_select ev) as [[|]|]; try discriminate.
  destruct (ev_recv ev) as [[data sender]|]; discriminate.
Qed.

(** A call that hands back a result had its hop limit and its time-out
    accepted. *)
Lemma probe_outcome_ret ttl timeout ev r :
  probe_outcome ttl timeout ev = Ret r ->
  setsockopt_check ttl = None /\ select_check timeout = None /\ ev_send ev = true.
Proof.
  unfold probe_outcome.
  destruct (setsockopt_check ttl); [discriminate|].
  destruct (ev_send ev); [|discriminate].
  destruct (select_check timeout); [discriminate|]. auto.
Qed.

(** ** main *)

Lemma main_unfold dest timeout max_steps t_type pe s :
  main dest timeout max_steps t_type pe s
  = let y := main_for (steps 0 (Z.to_nat max_steps)) dest timeout t_type pe s in
    (outcome y, final y, Stdout (LStart dest t_type timeout max_steps port) :: log y).
Proof.
  unfold main. rewrite range_enumerate. unfold bind, print, emit. cbv zeta.
  destruct (main_for (steps 0 (Z.to_nat max_steps)) dest timeout t_type pe s)
    as [[[u|e] s1] l1]; reflexivity.
Qed.

(** A run of [main] with a protocol [trace_funcs] knows. *)
Lemma main_views dest timeout max_steps t_type pe s :
  t_type = "icmp" \/ t_type = "udp" ->
  let r := main dest timeout max_steps t_type pe s in
  let sw := sweep net dest timeout (steps 0 (Z.to_nat max_steps)) (clock s) in
  hops (log r) = fst sw /\
  outcome r = match snd sw with None => Ret tt | Some e => Raise e end /\
  ttls (log r) = map Z.of_nat (seq 1 (calls sw)) /\
  clock (final r) = (clock s + calls sw)%nat /\
  Forall (fun st => snd st = timeout) (selects (log r)).
Proof.
  intros Hty. cbv zeta. rewrite main_unfold. cbv zeta.
  rewrite outcome_mk, final_mk, log_mk.
  destruct (dict_get_trace_funcs t_type) as [(tr & Hd & Htr & _)|(_ & N1 & N2)];
    [|destruct Hty; contradiction].
  destruct (@main_for_views tr dest timeout t_type pe Hd Htr
              (steps 0 (Z.to_nat max_steps)) s) as (Hh & Ho & Ht & Hc & Hs).
  rewrite steps_ttls in Ht by apply sweep_calls_le.
  repeat split; assumption.
Qed.

(** A run of [main] with any other protocol name: KeyError at the
    first step, nothing probed. *)
Lemma main_unknown_protocol dest timeout max_steps t_type pe s :
  t_type <> "icmp" -> t_type <> "udp" ->
  let r := main dest timeout max_steps t_type pe s in
  hops (log r) = [] /\ ttls (log r) = [] /\ selects (log r) = [] /\ final r = s /\
  outcome r = if max_steps <=? 0 then Ret tt else Raise KeyError.
Proof.
  intros N1 N2. cbv zeta. rewrite main_unfold. cbv zeta.
  destruct (dict_get_trace_funcs t_type) as [(tr & _ & _ & [E|E])|(Hd & _ & _)];
    try contradiction.
  destruct (Z.leb_spec max_steps 0) as [Hle|Hgt].
  - replace (Z.to_nat max_steps) with 0%nat by lia. repeat split; reflexivity.
  - destruct (Z.to_nat max_steps) as [|n] eqn:En; [lia|].
    rewrite steps_S, (@main_for_key_error _ _ dest timeout t_type pe s Hd).
    repeat split; reflexivity.
Qed.

Lemma firstn_seq_le n : forall a m, (n <= m)%nat -> firstn n (seq a m) = seq a n.
Proof.
  induction n as [|n IH]; intros a m Hm; [reflexivity|].
  destruct m as [|m]; [lia|]. cbn [seq firstn]. f_equal. apply IH. lia.
Qed.

(** ** The claims about the sweep *)

Lemma sweep_error_at dest timeout n : forall i0 k e,
  snd (sweep net dest timeout (steps i0 n) k) = Some e ->
  probe_outcome
    (Z.of_nat (S (i0 + List.length (fst (sweep net dest timeout (steps i0 n) k)))))
    timeout
    (net (k + List.length (fst (sweep net dest timeout (steps i0 n) k)))) = Raise e.
Proof.
  induction n as [|n IH]; intros i0 k e; [discriminate|].
  rewrite steps_S. cbn [sweep].
  destruct (probe_outcome (Z.of_nat (S i0)) timeout (net k)) as [r|e0] eqn:Eo.
  - destruct (String.eqb (fst r) dest); [discriminate|].
    specialize (IH (S i0) (S k) e).
    destruct (sweep net dest timeout (steps (S i0) n) (S k)) as [hs e1].
    cbn [fst snd List.length] in *. intros He.
    replace (k + S (List.length hs))%nat with (S k + List.length hs)%nat by lia.
    replace (i0 + S (List.length hs))%nat with (S i0 + List.length hs)%nat by lia.
    apply IH, He.
  - cbn [fst snd List.length]. intros [= <-]. rewrite !Nat.add_0_r. exact Eo.
Qed.

(** No more than 255 records: [setsockopt] refuses the hop limit 256. *)
Lemma sweep_at_most_255 dest timeout n k :
  (List.length (fst (sweep net dest timeout (steps 0 n) k)) <= 255)%nat.
Proof.
  set (hs := fst (sweep net dest timeout (steps 0 n) k)).
  destruct (Nat.eq_dec (List.length hs) 0) as [E|N]; [lia|].
  destruct (nth_error hs (List.length hs - 1)) as [h|] eqn:Eh.
  - destruct (@sweep_nth dest timeout n 0%nat k _ h Eh) as (_ & Ho & _).
    apply probe_outcome_ret in Ho. destruct Ho as (Hc & _).
    apply setsockopt_check_none in Hc. fold hs in Hc. lia.
  - apply nth_error_None in Eh. lia.
Qed.

(** C1, amended.  With [max_steps >= 0] and a protocol [trace_funcs]
    knows, whatever the probes meet: [main] sets the hop limits
    1, 2, ..., c in this order, one transport call for each, c at most
    [max_steps], and emits n records, the j-th being what the j-th call
    handed back.  No record but the last carries the destination (the
    comparison is [String.eqb]), so the sweep stops right after the
    first match.  When [main] returns, every call left its record; when
    it raises, the exception is the one the last call raised, and that
    call left no record.  So the sweep is shorter than [max_steps] only
    when its last record carries the destination or a transport call
    raised; and it never has more than 255 records, the hop limit 256
    being refused: the exception that ends a sweep of 255 records is
    the OSError of [setsockopt].  With [max_steps = 0] nothing is
    emitted and no call is made. *)
Theorem main_probes_in_order dest timeout max_steps t_type pe s :
  0 <= max_steps ->
  t_type = "icmp" \/ t_type = "udp" ->
  let r := main dest timeout max_steps t_type pe s in
  let n := List.length (hops (log r)) in
  let c := (clock (final r) - clock s)%nat in
  ttls (log r) = map Z.of_nat (seq 1 c) /\
  (n <= c)%nat /\ Z.of_nat c <= max_steps /\
  (forall j h, nth_error (hops (log r)) j = Some h ->
     probe_outcome (Z.of_nat j + 1) timeout (net (clock s + j))
     = Ret (hop_address h, hop_name h) /\
     ((S j < n)%nat -> hop_address h <> dest)) /\
  (outcome r = Ret tt -> c = n) /\
  (forall e, outcome r = Raise e ->
     c = S n /\
     probe_outcome (Z.of_nat n + 1) timeout (net (clock s + n)) = Raise e) /\
  (Z.of_nat n < max_steps ->
     (exists h, nth_error (hops (log r)) (n - 1) = Some h /\ hop_address h = dest) \/
     (exists e, outcome r = Raise e)) /\
  (n <= 255)%nat /\
  (forall e, outcome r = Raise e -> n = 255%nat -> e = SocketError) /\
  (max_steps = 0 ->
     hops (log r) = [] /\ ttls (log r) = [] /\ clock (final r) = clock s).
Proof.
  intros Hpos Hty. cbv zeta.
  destruct (@main_views dest timeout max_steps t_type pe s Hty) as (Hh & Ho & Ht & Hc & _).
  pose proof (sweep_calls_le dest timeout (Z.to_nat max_steps) 0 (clock s)) as Hle.
  pose proof (@sweep_error_at dest timeout (Z.to_nat max_steps) 0 (clock s)) as Herr.
  pose proof (sweep_at_most_255 dest timeout (Z.to_nat max_steps) (clock s)) as H255.
  pose proof (@sweep_short dest timeout (Z.to_nat max_steps) 0 (clock s)) as Hshort.
  cbv zeta in Hshort.
  set (sw := sweep net dest timeout (steps 0 (Z.to_nat max_steps)) (clock s)) in *.
  rewrite Hh, Ho, Ht, Hc.
  replace (clock s + calls sw - clock s)%nat with (calls sw) by lia.
  split; [reflexivity|].
  split; [unfold calls; lia|]. split; [lia|].
  split; [|split; [|split; [|split; [|split; [|split]]]]].
  - intros j h Hj. destruct (@sweep_nth dest timeout _ _ _ _ _ Hj) as (_ & Hout & Hlast).
    fold sw in Hlast. cbn [Nat.add] in Hout.
    replace (Z.of_nat j + 1) with (Z.of_nat (S j)) by lia. split; assumption.
  - unfold calls. destruct (snd sw); [discriminate | intros _; lia].
  - unfold calls. intros e He. destruct (snd sw) as [e0|] eqn:Es; [|discriminate].
    injection He as <-. split; [lia|].
    specialize (Herr e0 eq_refl). cbn [Nat.add] in Herr.
    replace (Z.of_nat (List.length (fst sw)) + 1)
      with (Z.of_nat (S (List.length (fst sw)))) by lia.
    exact Herr.
  - intros Hlt. destruct (snd sw) as [e0|] eqn:Es.
    + right. exists e0. reflexivity.
    + left. apply Hshort; [reflexivity | lia].
  - exact H255.
  - intros e He Hn. destruct (snd sw) as [e0|] eqn:Es; [|discriminate].
    injection He as <-. specialize (Herr e0 eq_refl). cbn [Nat.add] in Herr.
    rewrite Hn in Herr.
    assert (Hc256 : setsockopt_check (Z.of_nat 256) = Some SocketError) by reflexivity.
    unfold probe_outcome in Herr. rewrite Hc256 in Herr. congruence.
  - intros ->. unfold sw. cbn. repeat split; lia.
Qed.

(** C10.  In every run of [main] the j-th record emitted has index j,
    counted from 0, and the hop limit of its probe is its index plus
    one: indices have no gaps and no repeats. *)
Theorem hop_index_is_ttl_minus_one dest timeout max_steps t_type pe s :
  let r := main dest timeout max_steps t_type pe s in
  let n := List.length (hops (log r)) in
  map hop_index (hops (log r)) = map Z.of_nat (seq 0 n) /\
  map (fun h => hop_index h + 1) (hops (log r)) = firstn n (ttls (log r)).
Proof.
  cbv zeta.
  destruct (dict_get_trace_funcs t_type) as [(tr & _ & _ & Hty)|(_ & N1 & N2)].
  - destruct (@main_views dest timeout max_steps t_type pe s Hty) as (Hh & _ & Ht & _ & _).
    set (sw := sweep net dest timeout (steps 0 (Z.to_nat max_steps)) (clock s)) in *.
    rewrite Hh, Ht.
    assert (Hi : map hop_index (fst sw) = map Z.of_nat (seq 0 (List.length (fst sw))))
      by apply sweep_indices.
    split; [exact Hi|].
    rewrite firstn_map, firstn_seq_le by (unfold calls; lia).
    rewrite <- (map_map hop_index (fun i => i + 1)), Hi, map_map, <- seq_shift, map_map.
    apply map_ext. intros k. lia.
  - destruct (@main_unknown_protocol dest timeout max_steps t_type pe s N1 N2)
      as (Hh & Ht & _).
    rewrite Hh, Ht. split; reflexivity.
Qed.

(** C6.  A transport call that [select] answers with no readable socket
    returns ("*", "*"), on either transport, with its sockets closed
    and nothing logged as an error.  In a run of [main] for a
    destination other than "*" the call leaves the record
    (j, "*", "*") and, unless it was the last step, the next hop limit
    is probed.  The call is one that reaches [select]: its hop limit is
    one [setsockopt] takes (1 to 255; in [main], j < 255) and its
    time-out one [select] takes (0 to 9223372036). *)
Theorem timed_out_hop_continues dest timeout max_steps t_type pe s j :
  t_type = "icmp" \/ t_type = "udp" ->
  dest <> "*" ->
  select_check timeout = None ->
  ev_send (net (clock s + j)) = true ->
  ev_select (net (clock s + j)) = Some false ->
  (forall ttl s', clock s' = (clock s + j)%nat -> setsockopt_check ttl = None ->
     let ri := trace_icmp dest ttl timeout pe s' in
     let ru := trace_udp dest ttl timeout pe s' in
     outcome ri = Ret ("*", "*") /\ outcome ru = Ret ("*", "*") /\
     leaked (log ri) = [] /\ leaked (log ru) = [] /\
     printed (log ri) = [] /\ printed (log ru) = []) /\
  let r := main dest timeout max_steps t_type pe s in
  ((clock s + j < clock (final r))%nat -> (j < 255)%nat ->
     nth_error (hops (log r)) j
     = Some {| hop_index := Z.of_nat j; hop_address := "*"; hop_name := "*" |} /\
     (Z.of_nat j + 1 < max_steps ->
        nth_error (ttls (log r)) (S j) = Some (Z.of_nat j + 2) /\
        (clock s + S j < clock (final r))%nat)).
Proof.
  intros Hty Hdest Htime Hsend Hsel.
  assert (Hout : forall ttl, setsockopt_check ttl = None ->
                   probe_outcome ttl timeout (net (clock s + j)) = Ret ("*", "*"))
    by (intros ttl Hc; unfold probe_outcome; rewrite Hc, Hsend, Htime, Hsel; reflexivity).
  split.
  - intros ttl s' Hs' Hc. cbv zeta.
    pose proof (trace_icmp_leaks dest ttl timeout pe s') as Li.
    pose proof (trace_udp_leaks dest ttl timeout pe s') as Lu. cbv zeta in Li, Lu.
    rewrite trace_icmp_outcome in *. rewrite trace_udp_outcome in *.
    rewrite Hs', (Hout ttl Hc) in *.
    repeat split; try assumption.
    + unfold_calls. cbn [clock next_fd]. rewrite Hc.
      destruct (icmp_packet_returns (ev_random (net (clock s')))) as [pkt E]. rewrite E.
      rewrite Hs'.
      destruct (net (clock s + j)) as [rnd snd sel rcv dns idna].
      cbn [ev_send ev_select] in Hsend, Hsel. subst snd sel. rewrite Htime. reflexivity.
    + unfold_calls. cbn [clock next_fd]. rewrite Hc, Hs'.
      destruct (net (clock s + j)) as [rnd snd sel rcv dns idna].
      cbn [ev_send ev_select] in Hsend, Hsel. subst snd sel. rewrite Htime. reflexivity.
  - cbv zeta.
    destruct (@main_views dest timeout max_steps t_type pe s Hty) as (Hh & _ & Ht & Hc & _).
    set (sw := sweep net dest timeout (steps 0 (Z.to_nat max_steps)) (clock s)) in *.
    rewrite Hh, Ht, Hc. intros Hj H255.
    assert (Hacc : setsockopt_check (Z.of_nat (S (0 + j))) = None)
      by (apply setsockopt_check_none; lia).
    destruct (@sweep_continues dest timeout (Z.to_nat max_steps) 0 (clock s) j ("*", "*")
                ltac:(fold sw; lia) (Hout _ Hacc)) as (Hn & Hnext).
    fold sw in Hn, Hnext. split; [exact Hn|].
    intros Hlt. specialize (Hnext ltac:(cbn; congruence) ltac:(lia)).
    split; [|lia].
    rewrite nth_error_map, nth_error_seq.
    destruct (Nat.ltb_spec (S j) (calls sw)); [|lia].
    cbn [option_map]. f_equal. lia.
Qed.

(** ** The claims about one transport call *)

Lemma trace_icmp_opened dest ttl timeout pe s :
  opened (log (trace_icmp dest ttl timeout pe s)) = [next_fd s].
Proof.
  unfold_calls. cbn [clock next_fd].
  destruct (icmp_packet_returns (ev_random (net (clock s)))) as [pkt E]. rewrite E.
  case_events ttl timeout (net (clock s)); destruct pe; reflexivity.
Qed.

Lemma trace_udp_opened dest ttl timeout pe s :
  opened (log (trace_udp dest ttl timeout pe s)) = [next_fd s; S (next_fd s)].
Proof.
  unfold_calls. cbn [clock next_fd].
  case_events ttl timeout (net (clock s)); destruct pe; reflexivity.
Qed.

(** Either transport of [trace_funcs]: its outcome, and its sockets,
    all closed when it returns and all left open when it raises. *)
Lemma transport_outcome_and_sockets name tr dest ttl timeout pe s :
  In (name, tr) trace_funcs ->
  let r := tr dest ttl timeout pe s in
  outcome r = probe_outcome ttl timeout (net (clock s)) /\
  opened (log r) <> [] /\
  match outcome r with
  | Ret _ => leaked (log r) = []
  | Raise _ => leaked (log r) = opened (log r)
  end.
Proof.
  intros Hin. cbv zeta. destruct (@trace_funcs_cases _ _ Hin) as [-> | ->].
  - pose proof (trace_icmp_leaks dest ttl timeout pe s) as L. cbv zeta in L.
    rewrite trace_icmp_opened. split; [apply trace_icmp_outcome|].
    split; [discriminate | exact L].
  - pose proof (trace_udp_leaks dest ttl timeout pe s) as L. cbv zeta in L.
    rewrite trace_udp_opened. split; [apply trace_udp_outcome|].
    split; [discriminate | exact L].
Qed.

(** C4, amended.  On every path on which a transport call returns a
    result (the time-out, and a response whether or not its address
    resolves) all the sockets the call acquired are closed when it
    returns.  When [recvfrom] raises, the exception leaves the call
    and the sockets stay open, as they do on every path that ends in
    an exception.  The paths through [select] are those of a call
    whose hop limit and time-out are [accepted]. *)
Theorem sockets_closed_when_call_returns name tr dest ttl timeout pe s :
  In (name, tr) trace_funcs ->
  let ev := net (clock s) in
  let r := tr dest ttl timeout pe s in
  (accepted ttl timeout -> ev_send ev = true -> ev_select ev = Some false ->
     outcome r = Ret ("*", "*") /\ leaked (log r) = []) /\
  (forall data sender,
     accepted ttl timeout -> ev_send ev = true -> ev_select ev = Some true ->
     ev_recv ev = Some (data, sender) ->
     outcome r = Ret (dotted (fst sender), resolve ev (dotted (fst sender))) /\
     leaked (log r) = []) /\
  (forall x, outcome r = Ret x -> leaked (log r) = [] /\ opened (log r) <> []) /\
  (accepted ttl timeout -> ev_send ev = true -> ev_select ev = Some true ->
   ev_recv ev = None ->
     outcome r = Raise SocketError /\ leaked (log r) = opened (log r) /\
     opened (log r) <> []) /\
  (forall e, outcome r = Raise e ->
     leaked (log r) = opened (log r) /\ opened (log r) <> []).
Proof.
  intros Hin. cbv zeta.
  destruct (@transport_outcome_and_sockets name tr dest ttl timeout pe s Hin)
    as (Ho & Hop & Hl).
  rewrite Ho in *. unfold probe_outcome, accepted in *.
  split; [|split; [|split; [|split]]].
  - intros (Ha & Hb) Hs Hsel. rewrite Ha, Hb, Hs, Hsel in *. split; [reflexivity | exact Hl].
  - intros data sender (Ha & Hb) Hs Hsel Hr. rewrite Ha, Hb, Hs, Hsel, Hr in *.
    split; [reflexivity | exact Hl].
  - intros x Hx. rewrite Hx in Hl. split; assumption.
  - intros (Ha & Hb) Hs Hsel Hr. rewrite Ha, Hb, Hs, Hsel, Hr in *. repeat split; assumption.
  - intros e He. rewrite He in Hl. split; assumption.
Qed.

(** C5, what the code does.  When [sendto] raises socket.error the
    handler runs (its line is printed exactly when [print_errors] is
    set), [select] is never called, and the read of [ready] on line 44
    or 108 raises UnboundLocalError, which leaves the call with its
    sockets open: no result is returned.  The call is one that reaches
    [sendto]: [setsockopt] took its hop limit. *)
Theorem send_error_escapes_as_unbound_local name tr dest ttl timeout pe s :
  In (name, tr) trace_funcs ->
  setsockopt_check ttl = None ->
  ev_send (net (clock s)) = false ->
  let r := tr dest ttl timeout pe s in
  outcome r = Raise UnboundLocalError /\
  selects (log r) = [] /\
  printed (log r) = (if pe then [LErrMain] else []) /\
  leaked (log r) = opened (log r) /\
  opened (log r) <> [].
Proof.
  intros Hin Hc Hs. cbv zeta.
  destruct (@transport_outcome_and_sockets name tr dest ttl timeout pe s Hin)
    as (Ho & Hop & Hl).
  assert (Hout : probe_outcome ttl timeout (net (clock s)) = Raise UnboundLocalError)
    by (unfold probe_outcome; rewrite Hc, Hs; reflexivity).
  rewrite Ho, Hout in Hl. rewrite Ho, Hout.
  assert (Hlog : selects (log (tr dest ttl timeout pe s)) = [] /\
                 printed (log (tr dest ttl timeout pe s)) = (if pe then [LErrMain] else [])).
  { destruct (@trace_funcs_cases _ _ Hin) as [-> | ->].
    - apply trace_icmp_send_error; assumption.
    - apply trace_udp_send_error; assumption. }
  destruct Hlog as (Hsel & Hpr). repeat split; assumption.
Qed.



(** C8, amended.  From the same state, so against the same events,
    trace_udp and trace_icmp hand back the same result or raise the
    same exception, print the same lines, ask [select] for the same
    time-out, look up the same address, and both or neither leave
    sockets open.  trace_udp asks [recvfrom] for 512 bytes where
    trace_icmp asks for 1024. *)
Theorem trace_udp_mirrors_trace_icmp dest ttl timeout pe s :
  let ru := trace_udp dest ttl timeout pe s in
  let ri := trace_icmp dest ttl timeout pe s in
  outcome ru = outcome ri /\
  printed (log ru) = printed (log ri) /\
  map snd (selects (log ru)) = map snd (selects (log ri)) /\
  lookups (log ru) = lookups (log ri) /\
  (leaked (log ru) = [] <-> leaked (log ri) = []) /\
  List.length (recv_sizes (log ru)) = List.length (recv_sizes (log ri)) /\
  Forall (fun n => n = 512) (recv_sizes (log ru)) /\
  Forall (fun n => n = 1024) (recv_sizes (log ri)).
Proof.
  cbv zeta.
  pose proof (trace_icmp_leaks dest ttl timeout pe s) as Li.
  pose proof (trace_udp_leaks dest ttl timeout pe s) as Lu. cbv zeta in Li, Lu.
  pose proof (trace_udp_recv_sizes dest ttl timeout pe s) as Ru.
  pose proof (trace_icmp_recv_sizes dest ttl timeout pe s) as Ri.
  rewrite trace_icmp_outcome in *. rewrite trace_udp_outcome in *.
  split; [reflexivity|].
  assert (Hlogs : printed (log (trace_udp dest ttl timeout pe s))
                  = printed (log (trace_icmp dest ttl timeout pe s)) /\
                  map snd (selects (log (trace_udp dest ttl timeout pe s)))
                  = map snd (selects (log (trace_icmp dest ttl timeout pe s))) /\
                  lookups (log (trace_udp dest ttl timeout pe s))
                  = lookups (log (trace_icmp dest ttl timeout pe s)) /\
                  List.length (recv_sizes (log (trace_udp dest ttl timeout pe s)))
                  = List.length (recv_sizes (log (trace_icmp dest ttl timeout pe s)))).
  { clear Li Lu Ru Ri. unfold_calls. cbn [clock next_fd].
    destruct (icmp_packet_returns (ev_random (net (clock s)))) as [pkt E]. rewrite E.
    case_events ttl timeout (net (clock s)); destruct pe; repeat split; reflexivity. }
  destruct Hlogs as (Hp & Hs & Hl & Hn).
  repeat split; try assumption;
    destruct (probe_outcome ttl timeout (net (clock s))); intros H; rewrite ?Li, ?Lu in *;
    try reflexivity; try discriminate.
Qed.

(** ** The script body *)

(** C9.  The arguments [main] is called with, read off the namespace:
    the destination as given and [print_errors] unset; a time-out left
    out or negative has become 1 and any other is passed as it is (one
    of -5 reaches [main] as 1); a step count left out or negative has
    become 32 and any other is passed as it is; a protocol left out or
    outside "icmp" and "udp" has become "icmp" and either of the two is
    passed as it is.  The interactive call passes 1, 32 and "icmp".
    So, whatever the invocation, [main] gets a time-out that is not
    negative and a protocol that is "icmp" or "udp": [select] is never
    given a negative time-out, never raises ValueError, and the lookup
    in [trace_funcs] never raises KeyError. *)
Theorem script_coerces_its_arguments inv s :
  let a := script_args inv in
  (forall args, inv = WithArgs args ->
     a_dest_ip a = ns_destination args /\
     a_print_errors a = false /\
     (ns_timeout args = None -> a_timeout a = 1) /\
     (forall t, ns_timeout args = Some t -> t < 0 -> a_timeout a = 1) /\
     (forall t, ns_timeout args = Some t -> 0 <= t -> a_timeout a = t) /\
     (ns_timeout args = Some (-5) -> a_timeout a = 1) /\
     (ns_max_steps args = None -> a_max_steps a = 32) /\
     (forall n, ns_max_steps args = Some n -> n < 0 -> a_max_steps a = 32) /\
     (forall n, ns_max_steps args = Some n -> 0 <= n -> a_max_steps a = n) /\
     (ns_t_type args = None -> a_t_type a = "icmp") /\
     (forall t, ns_t_type args = Some t -> t <> "icmp" -> t <> "udp" ->
                a_t_type a = "icmp") /\
     (forall t, ns_t_type args = Some t -> t = "icmp" \/ t = "udp" -> a_t_type a = t)) /\
  (forall dest_ip, inv = Interactive dest_ip ->
     a = {| a_dest_ip := dest_ip; a_timeout := 1; a_max_steps := 32;
            a_t_type := "icmp"; a_print_errors := false |}) /\
  (0 <= a_timeout a /\ 0 <= a_max_steps a /\
   (a_t_type a = "icmp" \/ a_t_type a = "udp")) /\
  (script inv s
   = main (a_dest_ip a) (a_timeout a) (a_max_steps a) (a_t_type a) (a_print_errors a) s /\
   Forall (fun st => 0 <= snd st) (selects (log (script inv s))) /\
   outcome (script inv s) <> Raise KeyError /\
   outcome (script inv s) <> Raise ValueError).
Proof.
  cbv zeta.
  assert (Ht : forall o, 0 <= coerce_timeout o).
  { intros [t|]; cbn; [destruct (Z.ltb_spec t 0)|]; lia. }
  assert (Hm : forall o, 0 <= coerce_max_steps o).
  { intros [n|]; cbn; [destruct (Z.ltb_spec n 0)|]; lia. }
  assert (Hp : forall o, coerce_t_type o = "icmp" \/ coerce_t_type o = "udp").
  { intros [t|]; cbn; [|auto].
    destruct (String.eqb_spec t "icmp") as [->|]; [auto|].
    destruct (String.eqb_spec t "udp") as [->|]; cbn; auto. }
  assert (Hargs : 0 <= a_timeout (script_args inv) /\ 0 <= a_max_steps (script_args inv) /\
                  (a_t_type (script_args inv) = "icmp" \/ a_t_type (script_args inv) = "udp")).
  { destruct inv as [args|dest_ip]; cbn; [auto | repeat split; auto; lia]. }
  split; [|split; [|split; [exact Hargs|]]].
  - intros args ->. cbn [script_args a_dest_ip a_print_errors a_timeout a_max_steps a_t_type].
    split; [reflexivity|]. split; [reflexivity|].
    split; [intros ->; reflexivity|].
    split; [intros t -> Hlt; cbn; destruct (Z.ltb_spec t 0); [reflexivity | lia]|].
    split; [intros t -> Hge; cbn; destruct (Z.ltb_spec t 0); [lia | reflexivity]|].
    split; [intros ->; reflexivity|].
    split; [intros ->; reflexivity|].
    split; [intros n -> Hlt; cbn; destruct (Z.ltb_spec n 0); [reflexivity | lia]|].
    split; [intros n -> Hge; cbn; destruct (Z.ltb_spec n 0); [lia | reflexivity]|].
    split; [intros ->; reflexivity|].
    split.
    + intros t -> N1 N2. cbn.
      destruct (String.eqb_spec t "icmp"); [contradiction|].
      destruct (String.eqb_spec t "udp"); [contradiction|]. reflexivity.
    + intros t -> [-> | ->]; reflexivity.
  - intros dest_ip ->. reflexivity.
  - destruct Hargs as (H0 & _ & Hty).
    unfold script. cbv zeta.
    destruct (@main_views (a_dest_ip (script_args inv)) (a_timeout (script_args inv))
                (a_max_steps (script_args inv)) (a_t_type (script_args inv))
                (a_print_errors (script_args inv)) s Hty)
      as (_ & Ho & _ & _ & Hs).
    split; [reflexivity|]. split; [|split].
    + eapply Forall_impl; [|exact Hs]. cbn. intros st ->. exact H0.
    + rewrite Ho. pose proof (sweep_error_is_probe_error (a_dest_ip (script_args inv))
        (a_timeout (script_args inv))
        (Z.to_nat (a_max_steps (script_args inv))) 0 (clock s)) as He.
      destruct (snd (sweep net (a_dest_ip (script_args inv)) (a_timeout (script_args inv))
                       (steps 0 (Z.to_nat (a_max_steps (script_args inv)))) (clock s)))
        as [e|]; [|discriminate].
      intros [= ->]. destruct He as (ttl & k & Hk). revert Hk.
      apply probe_outcome_not_key_error.
    + rewrite Ho. pose proof (sweep_error_is_probe_error (a_dest_ip (script_args inv))
        (a_timeout (script_args inv))
        (Z.to_nat (a_max_steps (script_args inv))) 0 (clock s)) as He.
      destruct (snd (sweep net (a_dest_ip (script_args inv)) (a_timeout (script_args inv))
                       (steps 0 (Z.to_nat (a_max_steps (script_args inv)))) (clock s)))
        as [e|]; [|discriminate].
      intros [= ->]. destruct He as (ttl & k & Hk). revert Hk.
      apply probe_outcome_not_value_error. exact H0.
Qed.

(** * Further properties of the code *)

(** ** checksum_calc on any buffer *)

(** The loop on an even-length buffer: the words summed modulo 2^32. *)
Lemma pair_sum_mod s : forall sum,
  Nat.even (List.length s) = true ->
  0 <= sum < 2 ^ 32 ->
  pair_sum sum s = Ret ((sum + spec_word_sum s) mod 2 ^ 32).
Proof.
  induction s as [|a|a b l IH] using pair_ind; intros sum Hev Hs.
  - cbn [pair_sum spec_word_sum]. rewrite Z.add_0_r, Z.mod_small by lia. reflexivity.
  - discriminate Hev.
  - cbn [pair_sum spec_word_sum].
    change 4294967295 with (Z.ones 32). rewrite Z.land_ones by lia.
    rewrite IH; [| exact Hev | apply Z.mod_pos_bound; lia].
    f_equal. rewrite Zplus_mod_idemp_l. f_equal. lia.
Qed.

Lemma spec_word_sum_app a : forall b,
  Nat.even (List.length a) = true ->
  spec_word_sum (a ++ b) = spec_word_sum a + spec_word_sum b.
Proof.
  induction a as [|x|x y l IH] using pair_ind; intros b Hev.
  - reflexivity.
  - discriminate Hev.
  - cbn [app spec_word_sum]. rewrite IH by exact Hev. lia.
Qed.

Lemma checksum_finish_range x : 0 <= checksum_finish x < 65536.
Proof.
  unfold checksum_finish. cbv zeta.
  rewrite swap_bytes_spec by apply land_16_range. apply spec_swap_range.
Qed.

(** X1.  On every buffer of odd length checksum_calc raises IndexError:
    with the true division of line 66 [count_to] is the length itself,
    so the loop reads one byte past the end; and on no buffer at all is
    the trailing-byte branch of lines 75-77 taken. *)
Theorem checksum_calc_odd_raises_index_error s :
  Nat.odd (List.length s) = true ->
  checksum_calc s = Raise IndexError /\
  (forall t sum, checksum_odd t (count_to_of t) sum = Ret sum).
Proof.
  intros Hodd. split.
  - unfold checksum_calc. rewrite checksum_sum_pairs, pair_sum_odd by exact Hodd.
    reflexivity.
  - intros t sum. unfold checksum_odd. rewrite lt_float_int_count_to. reflexivity.
Qed.

(** X2.  On every buffer of even length checksum_calc returns, and what
    it returns fits 16 bits: the loop leaves the sum of the words
    [low + high * 256] modulo 2^32, which lines 79-84 fold, complement
    and swap. *)
Theorem checksum_calc_even_returns_16_bits s :
  Nat.even (List.length s) = true ->
  checksum_sum s = Ret (spec_word_sum s mod 2 ^ 32) /\
  checksum_calc s
  = Ret (checksum_finish (checksum_fold (spec_word_sum s mod 2 ^ 32))) /\
  exists c, checksum_calc s = Ret c /\ 0 <= c <= 65535.
Proof.
  intros Hev.
  assert (Hsum : checksum_sum s = Ret (spec_word_sum s mod 2 ^ 32)).
  { rewrite checksum_sum_pairs, pair_sum_mod by (try exact Hev; lia). reflexivity. }
  assert (Hc : checksum_calc s
               = Ret (checksum_finish (checksum_fold (spec_word_sum s mod 2 ^ 32)))).
  { unfold checksum_calc. rewrite Hsum. reflexivity. }
  split; [exact Hsum|]. split; [exact Hc|].
  eexists. split; [exact Hc|].
  pose proof (checksum_finish_range (checksum_fold (spec_word_sum s mod 2 ^ 32))). lia.
Qed.

(** X3.  The checksum does not depend on the order of the 16-bit words:
    two even-length buffers give the same checksum whichever comes
    first. *)
Theorem checksum_calc_app_comm a b :
  Nat.even (List.length a) = true ->
  Nat.even (List.length b) = true ->
  checksum_calc (a ++ b) = checksum_calc (b ++ a).
Proof.
  intros Ha Hb. unfold checksum_calc. rewrite !checksum_sum_pairs.
  assert (Hab : Nat.even (List.length (a ++ b)) = true)
    by (rewrite length_app, Nat.even_add, Ha, Hb; reflexivity).
  assert (Hba : Nat.even (List.length (b ++ a)) = true)
    by (rewrite length_app, Nat.even_add, Ha, Hb; reflexivity).
  rewrite !pair_sum_mod by (assumption || lia).
  rewrite (spec_word_sum_app a b Ha), (spec_word_sum_app b a Hb).
  rewrite (Z.add_comm (spec_word_sum b)). reflexivity.
Qed.

(** X4.  The port of line 21 lies between 10000 and 42566 whatever
    [random.random()] returns, the float product rounded as [round53]
    has it: above the privileged ports and below 65536. *)
Theorem port_of_range (d : draw) : 10000 <= port_of d <= 42566.
Proof.
  unfold port_of. pose proof (@scaled_int_range d 32567 ltac:(lia)). lia.
Qed.

(** ** One transport call, on the wire *)

(** X5.  A transport call whose hop limit [setsockopt] takes calls
    [sendto] exactly once, whatever the network does then, with the
    destination and the process-wide port: trace_icmp with the 8-byte
    echo request, whose checksum verifies (checksum_calc of it is 0),
    on the socket it opened; trace_udp with the five bytes "hello" on
    its second socket.  A call whose hop limit is refused never
    reaches [sendto]. *)
Theorem transports_call_sendto_once dest ttl timeout pe s :
  exists pkt,
    icmp_packet sys_byteorder (scaled_int (ev_random (net (clock s))) 32000) = Ret pkt /\
    List.length pkt = 8%nat /\
    checksum_calc pkt = Ret 0 /\
    (setsockopt_check ttl = None ->
       sends (log (trace_icmp dest ttl timeout pe s)) = [(next_fd s, pkt, dest, port)] /\
       sends (log (trace_udp dest ttl timeout pe s)) = [(S (next_fd s), hello, dest, port)]) /\
    (forall e, setsockopt_check ttl = Some e ->
       sends (log (trace_icmp dest ttl timeout pe s)) = [] /\
       sends (log (trace_udp dest ttl timeout pe s)) = []).
Proof.
  pose proof (@scaled_int_range (ev_random (net (clock s))) 32000 ltac:(lia)) as Hid.
  destruct (@icmp_packet_sums_to_ones sys_byteorder
              (scaled_int (ev_random (net (clock s))) 32000) ltac:(lia))
    as (pkt & sum & E & Hlen & _ & _ & _ & _ & Hc).
  exists pkt. split; [exact E|]. split; [exact Hlen|]. split; [exact Hc|].
  split.
  - intros Ha. split.
    + unfold_calls. cbn [clock next_fd]. rewrite E.
      case_events ttl timeout (net (clock s)); [discriminate|..]; destruct pe; reflexivity.
    + unfold_calls. cbn [clock next_fd].
      case_events ttl timeout (net (clock s)); [discriminate|..]; destruct pe; reflexivity.
  - intros e Ha. split.
    + unfold_calls. cbn [clock next_fd]. rewrite E, Ha. reflexivity.
    + unfold_calls. cbn [clock next_fd]. rewrite Ha. reflexivity.
Qed.

(** The log of a call on the paths that end in an exception before
    [recvfrom]. *)
Lemma trace_icmp_early_exits dest ttl timeout pe s :
  let ev := net (clock s) in
  let r := trace_icmp dest ttl timeout pe s in
  (forall e, setsockopt_check ttl = Some e ->
     sends (log r) = [] /\ selects (log r) = [] /\ printed (log r) = []) /\
  (forall e, setsockopt_check ttl = None -> ev_send ev = true ->
     select_check timeout = Some e ->
     List.length (selects (log r)) = 1%nat /\ printed (log r) = []) /\
  (accepted ttl timeout -> ev_send ev = true -> ev_select ev = None ->
     List.length (selects (log r)) = 1%nat /\
     printed (log r) = (if pe then [LErrMain] else [])).
Proof.
  cbv zeta. unfold accepted.
  destruct (icmp_packet_returns (ev_random (net (clock s)))) as [pkt E].
  split; [|split].
  - intros e Ha. unfold_calls. cbn [clock next_fd]. rewrite E, Ha. repeat split.
  - intros e Ha. unfold_calls. cbn [clock next_fd]. rewrite E, Ha.
    destruct (net (clock s)) as [rnd snd sel rcv dns idna]. cbn [ev_send ev_select].
    intros -> Hb. rewrite Hb.
    destruct (select_check_cases timeout) as [Hd|[Hd|Hd]]; rewrite Hd in Hb;
      try discriminate; injection Hb as <-; split; reflexivity.
  - intros (Ha & Hb). unfold_calls. cbn [clock next_fd]. rewrite E, Ha, Hb.
    destruct (net (clock s)) as [rnd snd sel rcv dns idna]. cbn [ev_send ev_select].
    intros -> ->. destruct pe; split; reflexivity.
Qed.

Lemma trace_udp_early_exits dest ttl timeout pe s :
  let ev := net (clock s) in
  let r := trace_udp dest ttl timeout pe s in
  (forall e, setsockopt_check ttl = Some e ->
     sends (log r) = [] /\ selects (log r) = [] /\ printed (log r) = []) /\
  (forall e, setsockopt_check ttl = None -> ev_send ev = true ->
     select_check timeout = Some e ->
     List.length (selects (log r)) = 1%nat /\ printed (log r) = []) /\
  (accepted ttl timeout -> ev_send ev = true -> ev_select ev = None ->
     List.length (selects (log r)) = 1%nat /\
     printed (log r) = (if pe then [LErrMain] else [])).
Proof.
  cbv zeta. unfold accepted.
  split; [|split].
  - intros e Ha. unfold_calls. cbn [clock next_fd]. rewrite Ha. repeat split.
  - intros e Ha. unfold_calls. cbn [clock next_fd]. rewrite Ha.
    destruct (net (clock s)) as [rnd snd sel rcv dns idna]. cbn [ev_send ev_select].
    intros -> Hb. rewrite Hb.
    destruct (select_check_cases timeout) as [Hd|[Hd|Hd]]; rewrite Hd in Hb;
      try discriminate; injection Hb as <-; split; reflexivity.
  - intros (Ha & Hb). unfold_calls. cbn [clock next_fd]. rewrite Ha, Hb.
    destruct (net (clock s)) as [rnd snd sel rcv dns idna]. cbn [ev_send ev_select].
    intros -> ->. destruct pe; split; reflexivity.
Qed.

(** The outcome of a call, path by path. *)
Lemma probe_outcome_paths ttl timeout ev :
  (forall e, setsockopt_check ttl = Some e -> probe_outcome ttl timeout ev = Raise e) /\
  (setsockopt_check ttl = None -> ev_send ev = false ->
     probe_outcome ttl timeout ev = Raise UnboundLocalError) /\
  (forall e, setsockopt_check ttl = None -> ev_send ev = true ->
     select_check timeout = Some e -> probe_outcome ttl timeout ev = Raise e) /\
  (accepted ttl timeout -> ev_send ev = true -> ev_select ev = None ->
     probe_outcome ttl timeout ev = Raise UnboundLocalError) /\
  (accepted ttl timeout -> ev_send ev = true -> ev_select ev = Some true ->
   ev_recv ev = None -> probe_outcome ttl timeout ev = Raise SocketError) /\
  (accepted ttl timeout -> ev_send ev = true ->
   ev_select ev = Some false \/ (ev_select ev = Some true /\ ev_recv ev <> None) ->
   exists x, probe_outcome ttl timeout ev = Ret x).
Proof.
  unfold probe_outcome, accepted. repeat split.
  - intros e ->. reflexivity.
  - intros -> ->. reflexivity.
  - intros e -> -> ->. reflexivity.
  - intros (-> & ->) -> ->. reflexivity.
  - intros (-> & ->) -> -> ->. reflexivity.
  - intros (-> & ->) -> [-> | (-> & Hr)]; [eexists; reflexivity|].
    destruct (ev_recv ev) as [[data sender]|]; [eexists; reflexivity | contradiction].
Qed.

(** X6.  How a transport of [trace_funcs] comes to raise.  A hop limit
    [setsockopt] refuses: its exception (OSError for 0 and for a value
    above 255) leaves the call before anything is sent or printed.
    [sendto] raising socket.error: UnboundLocalError (the handler ran
    and [ready] stayed unassigned).  A time-out [select] refuses: its
    exception (ValueError for a negative one) is not a socket.error,
    so the handler does not run and the exception leaves the call.
    [select] raising socket.error: UnboundLocalError; [select] was
    called once and the handler's line is printed exactly when
    [print_errors] is set.  [recvfrom] raising socket.error: that
    error leaves the call.  On the remaining paths, the time-out and
    the response read, the call returns. *)
Theorem transport_exceptions :
  Forall (fun kv : string * transport =>
    forall dest ttl timeout pe s,
      let ev := net (clock s) in
      let r := snd kv dest ttl timeout pe s in
      (forall e, setsockopt_check ttl = Some e ->
         outcome r = Raise e /\ sends (log r) = [] /\ selects (log r) = [] /\
         printed (log r) = []) /\
      (ttl = 0 \/ 255 < ttl <= 2147483647 -> outcome r = Raise SocketError) /\
      (setsockopt_check ttl = None -> ev_send ev = false ->
         outcome r = Raise UnboundLocalError) /\
      (forall e, setsockopt_check ttl = None -> ev_send ev = true ->
         select_check timeout = Some e ->
         outcome r = Raise e /\ printed (log r) = []) /\
      (setsockopt_check ttl = None -> ev_send ev = true ->
       - 9223372036 <= timeout < 0 -> outcome r = Raise ValueError) /\
      (accepted ttl timeout -> ev_send ev = true -> ev_select ev = None ->
         outcome r = Raise UnboundLocalError /\
         List.length (selects (log r)) = 1%nat /\
         printed (log r) = (if pe then [LErrMain] else [])) /\
      (accepted ttl timeout -> ev_send ev = true -> ev_select ev = Some true ->
       ev_recv ev = None -> outcome r = Raise SocketError) /\
      (accepted ttl timeout -> ev_send ev = true ->
       ev_select ev = Some false \/ (ev_select ev = Some true /\ ev_recv ev <> None) ->
       exists x, outcome r = Ret x))
    trace_funcs.
Proof.
  assert (Httl : forall ttl, ttl = 0 \/ 255 < ttl <= 2147483647 ->
                             setsockopt_check ttl = Some SocketError).
  { intros ttl Hr. unfold setsockopt_check.
    destruct (Z.ltb_spec ttl (- 2 ^ 31)); [lia|].
    destruct (Z.ltb_spec (2 ^ 31 - 1) ttl); [lia|].
    destruct (Z.leb_spec 1 ttl); destruct (Z.leb_spec ttl 255); destruct (Z.eqb_spec ttl (-1));
      cbn [orb andb]; try reflexivity; lia. }
  assert (Htime : forall timeout, - 9223372036 <= timeout < 0 ->
                                  select_check timeout = Some ValueError).
  { intros timeout Hr. unfold select_check.
    destruct (Z.ltb_spec timeout (- 9223372036)); [lia|].
    destruct (Z.ltb_spec 9223372036 timeout); [lia|].
    destruct (Z.ltb_spec timeout 0); [reflexivity | lia]. }
  unfold trace_funcs.
  apply Forall_cons; [|apply Forall_cons; [|apply Forall_nil]];
    cbn [snd]; intros dest ttl timeout pe s; cbv zeta.
  - rewrite trace_icmp_outcome.
    destruct (probe_outcome_paths ttl timeout (net (clock s)))
      as (P1 & P2 & P3 & P4 & P5 & P6).
    destruct (trace_icmp_early_exits dest ttl timeout pe s) as (L1 & L2 & L3).
    split; [intros e Ha; split; [apply P1, Ha | apply (L1 e Ha)]|].
    split; [intros Hr; apply P1, Httl, Hr|].
    split; [exact P2|].
    split; [intros e Ha Hs Hb; split; [apply P3; assumption | apply (L2 e Ha Hs Hb)]|].
    split; [intros Ha Hs Hr; apply P3; [assumption | assumption | apply Htime, Hr]|].
    split; [intros Ha Hs Hsel; split; [apply P4; assumption | apply L3; assumption]|].
    split; [exact P5 | exact P6].
  - rewrite trace_udp_outcome.
    destruct (probe_outcome_paths ttl timeout (net (clock s)))
      as (P1 & P2 & P3 & P4 & P5 & P6).
    destruct (trace_udp_early_exits dest ttl timeout pe s) as (L1 & L2 & L3).
    split; [intros e Ha; split; [apply P1, Ha | apply (L1 e Ha)]|].
    split; [intros Hr; apply P1, Httl, Hr|].
    split; [exact P2|].
    split; [intros e Ha Hs Hb; split; [apply P3; assumption | apply (L2 e Ha Hs Hb)]|].
    split; [intros Ha Hs Hr; apply P3; [assumption | assumption | apply Htime, Hr]|].
    split; [intros Ha Hs Hsel; split; [apply P4; assumption | apply L3; assumption]|].
    split; [exact P5 | exact P6].
Qed.

(** X13.  trace_udp keeps its two sockets apart: the first, raw ICMP,
    is the one it binds to port 1 (once [setsockopt] has taken the hop
    limit), waits on and reads from; the second, UDP, is the one whose
    hop limit it sets and on which it sends. *)
Theorem trace_udp_socket_roles dest ttl timeout pe s :
  let l := log (trace_udp dest ttl timeout pe s) in
  let recv_socket := next_fd s in
  let send_socket := S (next_fd s) in
  In (Socket recv_socket RAW_ICMP) l /\
  In (Socket send_socket DGRAM_UDP) l /\
  (setsockopt_check ttl = None -> In (Bind recv_socket "" 1) l) /\
  In (SetTTL send_socket ttl) l /\
  Forall (fun a =>
            match a with
            | Socket fd k =>
                (fd = recv_socket /\ k = RAW_ICMP) \/ (fd = send_socket /\ k = DGRAM_UDP)
            | SetTTL fd _ | SendTo fd _ _ _ => fd = send_socket
            | Bind fd _ _ | Select fd _ | RecvFrom fd _ => fd = recv_socket
            | Close fd => fd = recv_socket \/ fd = send_socket
            | GetHostByAddr _ | Stdout _ => True
            end) l.
Proof.
  cbv zeta. unfold_calls. cbn [clock next_fd].
  case_events ttl timeout (net (clock s)); destruct pe; cbn;
    (split; [auto 12|]); (split; [auto 12|]);
    (split; [intros Hb; try discriminate Hb; auto 12|]); (split; [auto 12|]);
    repeat (apply Forall_cons; [auto|]); apply Forall_nil.
Qed.

(** X14.  Once a response is read, trace_icmp closes its socket before
    it looks the address up, while trace_udp looks the address up
    first and closes its two sockets afterwards. *)
Theorem close_and_lookup_order dest ttl timeout pe s data (a : ipv4) p :
  accepted ttl timeout ->
  ev_send (net (clock s)) = true ->
  ev_select (net (clock s)) = Some true ->
  ev_recv (net (clock s)) = Some (data, (a, p)) ->
  before (Close (next_fd s)) (GetHostByAddr (dotted a))
    (log (trace_icmp dest ttl timeout pe s)) /\
  before (GetHostByAddr (dotted a)) (Close (S (next_fd s)))
    (log (trace_udp dest ttl timeout pe s)) /\
  before (GetHostByAddr (dotted a)) (Close (next_fd s))
    (log (trace_udp dest ttl timeout pe s)).
Proof.
  intros (Ha & Hb) Hs Hsel Hr.
  destruct (icmp_packet_returns (ev_random (net (clock s)))) as [pkt E].
  unfold before. split; [|split].
  - exists [Socket (next_fd s) RAW_ICMP; SetTTL (next_fd s) ttl;
            SendTo (next_fd s) pkt dest port; Select (next_fd s) timeout;
            RecvFrom (next_fd s) 1024].
    unfold_calls. cbn [clock next_fd]. rewrite E, Ha, Hb.
    destruct (net (clock s)) as [rnd snd sel rcv dns idna].
    cbn [ev_send ev_select ev_recv ev_dns ev_idna ev_random] in *. subst snd sel rcv. cbn.
    rewrite host_check_dotted.
    destruct (dns (dotted a)) as [[[name al] ad]|]; destruct pe; cbn;
      eexists; (split; [reflexivity | cbn; auto]).
  - exists [Socket (next_fd s) RAW_ICMP; Socket (S (next_fd s)) DGRAM_UDP;
            SetTTL (S (next_fd s)) ttl; Bind (next_fd s) "" 1;
            SendTo (S (next_fd s)) hello dest port; Select (next_fd s) timeout;
            RecvFrom (next_fd s) 512].
    unfold_calls. cbn [clock next_fd]. rewrite Ha, Hb.
    destruct (net (clock s)) as [rnd snd sel rcv dns idna].
    cbn [ev_send ev_select ev_recv ev_dns ev_idna ev_random] in *. subst snd sel rcv. cbn.
    rewrite host_check_dotted.
    destruct (dns (dotted a)) as [[[name al] ad]|]; destruct pe; cbn;
      eexists; (split; [reflexivity | cbn; auto]).
  - exists [Socket (next_fd s) RAW_ICMP; Socket (S (next_fd s)) DGRAM_UDP;
            SetTTL (S (next_fd s)) ttl; Bind (next_fd s) "" 1;
            SendTo (S (next_fd s)) hello dest port; Select (next_fd s) timeout;
            RecvFrom (next_fd s) 512].
    unfold_calls. cbn [clock next_fd]. rewrite Ha, Hb.
    destruct (net (clock s)) as [rnd snd sel rcv dns idna].
    cbn [ev_send ev_select ev_recv ev_dns ev_idna ev_random] in *. subst snd sel rcv. cbn.
    rewrite host_check_dotted.
    destruct (dns (dotted a)) as [[[name al] ad]|]; destruct pe; cbn;
      eexists; (split; [reflexivity | cbn; auto 6]).
Qed.

(** ** The whole run *)

(** X7.  With [max_steps <= 0] the range of line 130 is empty: [main]
    prints its first line and returns, without a transport call, a
    socket or a look in [trace_funcs], whatever the protocol name. *)
Theorem main_without_steps dest timeout max_steps t_type pe s :
  max_steps <= 0 ->
  main dest timeout max_steps t_type pe s
  = (Ret tt, s, [Stdout (LStart dest t_type timeout max_steps port)]).
Proof.
  intros Hle. rewrite main_unfold.
  replace (Z.to_nat max_steps) with 0%nat by lia. reflexivity.
Qed.

(** X8.  With a protocol name other than "icmp" and "udp" and at least
    one step, [main] prints its first line and raises KeyError at the
    first turn of the loop, before any socket is opened. *)
Theorem main_unknown_protocol_raises dest timeout max_steps t_type pe s :
  t_type <> "icmp" -> t_type <> "udp" -> 1 <= max_steps ->
  main dest timeout max_steps t_type pe s
  = (Raise KeyError, s, [Stdout (LStart dest t_type timeout max_steps port)]).
Proof.
  intros N1 N2 Hpos. rewrite main_unfold.
  destruct (dict_get_trace_funcs t_type) as [(tr & _ & _ & [E|E])|(Hd & _ & _)];
    try contradiction.
  destruct (Z.to_nat max_steps) as [|n] eqn:En; [lia|].
  rewrite steps_S, (@main_for_key_error _ _ dest timeout t_type pe s Hd). reflexivity.
Qed.


(** X9.  In every run of [main] with a protocol of [trace_funcs],
    whatever the network does: the hop limits set are 1, 2, ..., c for
    the c transport calls made, c is at most [max_steps] and at most
    256, and there are at most 255 records; c is the number of records
    when [main] returns and one more when it raises, the exception
    being the one the last call raised, which ends the trace.  A 256th
    call always raises: [setsockopt] refuses its hop limit with
    OSError. *)
Theorem main_calls_are_bounded dest timeout max_steps t_type pe s :
  t_type = "icmp" \/ t_type = "udp" ->
  let r := main dest timeout max_steps t_type pe s in
  let n := List.length (hops (log r)) in
  let c := (clock (final r) - clock s)%nat in
  ttls (log r) = map Z.of_nat (seq 1 c) /\
  Z.of_nat c <= Z.max 0 max_steps /\
  (c <= 256)%nat /\ (n <= 255)%nat /\
  (outcome r = Ret tt -> c = n) /\
  (forall e, outcome r = Raise e ->
     c = S n /\
     probe_outcome (Z.of_nat n + 1) timeout (net (clock s + n)) = Raise e) /\
  (c = 256%nat -> outcome r = Raise SocketError /\ n = 255%nat).
Proof.
  intros Hty. cbv zeta.
  destruct (@main_views dest timeout max_steps t_type pe s Hty) as (Hh & Ho & Ht & Hc & _).
  pose proof (sweep_calls_le dest timeout (Z.to_nat max_steps) 0 (clock s)) as Hle.
  pose proof (@sweep_error_at dest timeout (Z.to_nat max_steps) 0 (clock s)) as Herr.
  pose proof (sweep_at_most_255 dest timeout (Z.to_nat max_steps) (clock s)) as H255.
  set (sw := sweep net dest timeout (steps 0 (Z.to_nat max_steps)) (clock s)) in *.
  rewrite Hh, Ho, Ht, Hc.
  replace (clock s + calls sw - clock s)%nat with (calls sw) by lia.
  split; [reflexivity|]. split; [lia|].
  unfold calls in *. destruct (snd sw) as [e0|].
  - specialize (Herr e0 eq_refl). cbn [Nat.add] in Herr.
    split; [lia|]. split; [exact H255|].
    split; [discriminate|]. split.
    + intros e [= <-]. split; [lia|].
      replace (Z.of_nat (List.length (fst sw)) + 1)
        with (Z.of_nat (S (List.length (fst sw)))) by lia.
      exact Herr.
    + intros Hc256. assert (Hn : List.length (fst sw) = 255%nat) by lia.
      split; [|exact Hn]. rewrite Hn in Herr.
      destruct (probe_outcome_paths (Z.of_nat 256) timeout (net (clock s + 255)))
        as (P1 & _).
      rewrite (P1 SocketError eq_refl) in Herr. injection Herr as <-. reflexivity.
  - split; [lia|]. split; [exact H255|].
    split; [intros _; lia|]. split; [discriminate | intros Hc256; lia].
Qed.

Lemma filter_nil_iff (A : Type) (f : A -> bool) l :
  filter f l = [] <-> forall x, In x l -> f x = false.
Proof.
  induction l as [|a l IH]; cbn [filter In].
  - split; [intros _ x [] | reflexivity].
  - destruct (f a) eqn:Ea; split.
    + discriminate.
    + intros H. specialize (H a (or_introl eq_refl)). congruence.
    + intros H x [<-|Hx]; [exact Ea | apply IH; assumption].
    + intros H. apply IH. intros x Hx. apply H. right. exact Hx.
Qed.

Lemma leaked_nil_iff l :
  leaked l = [] <-> forall fd, In fd (opened l) -> In fd (closed l).
Proof.
  unfold leaked. rewrite filter_nil_iff. split; intros H fd Hfd; specialize (H fd Hfd).
  - apply negb_false_iff, existsb_exists in H. destruct H as (y & Hy & E).
    apply Nat.eqb_eq in E. subst y. exact Hy.
  - apply negb_false_iff, existsb_exists. exists fd. split; [exact H | apply Nat.eqb_refl].
Qed.

Lemma leaked_app_nil l1 l2 : leaked l1 = [] -> leaked l2 = [] -> leaked (l1 ++ l2) = [].
Proof.
  rewrite !leaked_nil_iff. unfold opened, closed. rewrite !flat_map_app.
  intros H1 H2 fd Hfd. apply in_app_iff. apply in_app_iff in Hfd.
  destruct Hfd as [Hfd|Hfd]; [left; apply H1 | right; apply H2]; exact Hfd.
Qed.

(** [trace_funcs[t_type]], case by case. *)
Lemma transport_lookup t_type :
  (t_type = "icmp" /\ dict_get trace_funcs t_type = ret trace_icmp) \/
  (t_type = "udp" /\ dict_get trace_funcs t_type = ret trace_udp) \/
  (t_type <> "icmp" /\ t_type <> "udp" /\ dict_get trace_funcs t_type = raise KeyError).
Proof.
  unfold dict_get, trace_funcs. cbn [find fst snd].
  destruct (String.eqb_spec "icmp" t_type) as [E1|N1]; [left; auto|].
  destruct (String.eqb_spec "udp" t_type) as [E2|N2]; [right; left; auto|].
  right; right. repeat split; congruence.
Qed.

Lemma trace_icmp_tidy : tidy trace_icmp.
Proof.
  intros dest ttl timeout pe s. cbv zeta.
  pose proof (trace_icmp_leaks dest ttl timeout pe s) as L. cbv zeta in L.
  split; [apply trace_icmp_hops|]. split; [|split].
  - unfold_calls. unfold trace_lines. cbn [clock next_fd].
    destruct (icmp_packet_returns (ev_random (net (clock s)))) as [pkt E]. rewrite E.
    case_events ttl timeout (net (clock s)); destruct pe; reflexivity.
  - intros ->. unfold_calls. cbn [clock next_fd].
    destruct (icmp_packet_returns (ev_random (net (clock s)))) as [pkt E]. rewrite E.
    case_events ttl timeout (net (clock s)); reflexivity.
  - intros v Hv. rewrite Hv in L. exact L.
Qed.

Lemma trace_udp_tidy : tidy trace_udp.
Proof.
  intros dest ttl timeout pe s. cbv zeta.
  pose proof (trace_udp_leaks dest ttl timeout pe s) as L. cbv zeta in L.
  split; [apply trace_udp_hops|]. split; [|split].
  - unfold_calls. unfold trace_lines. cbn [clock next_fd].
    case_events ttl timeout (net (clock s)); destruct pe; reflexivity.
  - intros ->. unfold_calls. cbn [clock next_fd].
    case_events ttl timeout (net (clock s)); reflexivity.
  - intros v Hv. rewrite Hv in L. exact L.
Qed.

Lemma trace_lines_app l1 l2 : trace_lines (l1 ++ l2) = trace_lines l1 ++ trace_lines l2.
Proof. unfold trace_lines. rewrite printed_app. apply filter_app. Qed.

Lemma line_of_hop_hop i r :
  line_of_hop (hop i r)
  = LHop i (fst r) (if String.eqb (fst r) (snd r) then None else Some (snd r)).
Proof. reflexivity. Qed.

Lemma printed_hop_line i r : printed [hop_line i r] = [line_of_hop (hop i r)].
Proof. reflexivity. Qed.

Lemma trace_lines_hop_line i r : trace_lines [hop_line i r] = [line_of_hop (hop i r)].
Proof. reflexivity. Qed.

Lemma reaches_hop dest i r : reaches dest (hop i r) = String.eqb (fst r) dest.
Proof. reflexivity. Qed.

(** The lines and the sockets of the loop. *)
Lemma main_for_lines tr dest timeout t_type pe :
  dict_get trace_funcs t_type = ret tr -> tidy tr ->
  forall todo s,
    let r := main_for todo dest timeout t_type pe s in
    trace_lines (log r)
    = map line_of_hop (hops (log r))
      ++ (if existsb (reaches dest) (hops (log r)) then [LReached] else []) /\
    (pe = false -> printed (log r) = trace_lines (log r)) /\
    (outcome r = Ret tt -> leaked (log r) = []).
Proof.
  intros Hd Htr todo. induction todo as [|[i ttl] todo IH]; intros s; cbv zeta.
  - cbn. repeat split; reflexivity.
  - rewrite (@main_for_step tr i ttl todo dest timeout t_type pe s Hd). cbv zeta.
    destruct (Htr dest ttl timeout pe s) as (Hh & Hl & Hq & Hleak).
    set (x := tr dest ttl timeout pe s) in *.
    destruct (outcome x) as [r0|e] eqn:Eo.
    + assert (Lx : leaked (log x) = []) by (apply (Hleak r0); reflexivity).
      destruct (String.eqb (fst r0) dest) eqn:Ed.
      * change [hop_line i r0; Stdout LReached] with ([hop_line i r0] ++ [Stdout LReached]).
        rewrite outcome_mk, log_mk, !trace_lines_app, !hops_app, !printed_app, Hh, Hl,
          hops_hop_line, trace_lines_hop_line, printed_hop_line.
        change (hops [Stdout LReached]) with (@nil HopRecord).
        change (trace_lines [Stdout LReached]) with [LReached].
        change (printed [Stdout LReached]) with [LReached].
        cbn [app map existsb]. rewrite reaches_hop, Ed. cbn [orb app].
        split; [reflexivity|]. split.
        -- intros Hpe. rewrite (Hq Hpe). reflexivity.
        -- intros _. apply leaked_app_nil; [exact Lx | reflexivity].
      * specialize (IH (final x)). cbv zeta in IH. destruct IH as (IHl & IHq & IHleak).
        set (y := main_for todo dest timeout t_type pe (final x)) in *.
        change (hop_line i r0 :: log y) with ([hop_line i r0] ++ log y).
        rewrite outcome_mk, log_mk, !trace_lines_app, !hops_app, !printed_app, Hh, Hl,
          hops_hop_line, trace_lines_hop_line, printed_hop_line.
        cbn [app map existsb]. rewrite reaches_hop, Ed. cbn [orb].
        split; [rewrite IHl; reflexivity|]. split.
        -- intros Hpe. rewrite (Hq Hpe), (IHq Hpe). reflexivity.
        -- intros Hret. apply leaked_app_nil; [exact Lx|].
           apply (@leaked_app_nil [hop_line i r0] (log y));
             [reflexivity | apply IHleak, Hret].
    + rewrite outcome_mk, log_mk, Hh, Hl. cbn [map existsb app].
      split; [reflexivity|]. split; [|discriminate].
      intros Hpe. rewrite (Hq Hpe). reflexivity.
Qed.

(** The lines and the sockets of a whole run. *)
Lemma main_lines dest timeout max_steps t_type pe s :
  let r := main dest timeout max_steps t_type pe s in
  trace_lines (log r)
  = LStart dest t_type timeout max_steps port
    :: map line_of_hop (hops (log r))
    ++ (if existsb (reaches dest) (hops (log r)) then [LReached] else []) /\
  (pe = false -> printed (log r) = trace_lines (log r)) /\
  (outcome r = Ret tt -> leaked (log r) = []).
Proof.
  cbv zeta. rewrite main_unfold. cbv zeta. rewrite outcome_mk, log_mk.
  set (y := main_for (steps 0 (Z.to_nat max_steps)) dest timeout t_type pe s).
  assert (Hy : trace_lines (log y)
               = map line_of_hop (hops (log y))
                 ++ (if existsb (reaches dest) (hops (log y)) then [LReached] else []) /\
               (pe = false -> printed (log y) = trace_lines (log y)) /\
               (outcome y = Ret tt -> leaked (log y) = [])).
  { destruct (transport_lookup t_type) as [(_ & Hd)|[(_ & Hd)|(_ & _ & Hd)]].
    - apply (@main_for_lines trace_icmp dest timeout t_type pe Hd trace_icmp_tidy).
    - apply (@main_for_lines trace_udp dest timeout t_type pe Hd trace_udp_tidy).
    - unfold y. destruct (Z.to_nat max_steps) as [|n].
      + cbn. repeat split; reflexivity.
      + rewrite steps_S, (@main_for_key_error _ _ dest timeout t_type pe s Hd).
        cbn. repeat split; reflexivity. }
  destruct Hy as (Hl & Hq & Hleak).
  change (Stdout (LStart dest t_type timeout max_steps port) :: log y)
    with ([Stdout (LStart dest t_type timeout max_steps port)] ++ log y).
  rewrite trace_lines_app, hops_app, printed_app, Hl. cbn [app hops flat_map].
  split; [reflexivity|]. split.
  - intros Hpe. rewrite (Hq Hpe), Hl. reflexivity.
  - intros Hret.
    apply (@leaked_app_nil [Stdout (LStart dest t_type timeout max_steps port)] (log y));
      [reflexivity | apply Hleak, Hret].
Qed.

(** X10.  When [main] returns, every socket its transport calls opened
    has been closed again. *)
Theorem main_returns_with_sockets_closed dest timeout max_steps t_type pe s :
  let r := main dest timeout max_steps t_type pe s in
  outcome r = Ret tt -> leaked (log r) = [].
Proof.
  cbv zeta. apply main_lines.
Qed.

(** X11.  What [main] prints, error messages aside: its first line,
    then one line per record in the order of the records, showing the
    name only when it differs from the address, then "Reached" exactly
    when a record carries the destination.  With [print_errors] unset
    it prints nothing else. *)
Theorem main_output_lines dest timeout max_steps t_type pe s :
  let r := main dest timeout max_steps t_type pe s in
  trace_lines (log r)
  = LStart dest t_type timeout max_steps port
    :: map line_of_hop (hops (log r))
    ++ (if existsb (reaches dest) (hops (log r)) then [LReached] else []) /\
  (pe = false -> printed (log r) = trace_lines (log r)).
Proof.
  cbv zeta.
  destruct (main_lines dest timeout max_steps t_type pe s) as (H1 & H2 & _).
  split; assumption.
Qed.

(** X12.  The script body never prints the two socket-error messages:
    it calls [main] without [print_errors], which stays False, and no
    command-line option sets it. *)
Theorem script_prints_no_error_line inv s :
  Forall (fun ln => is_error_line ln = false) (printed (log (script inv s))).
Proof.
  assert (E : a_print_errors (script_args inv) = false) by (destruct inv; reflexivity).
  unfold script. cbv zeta. rewrite E.
  destruct (main_lines (a_dest_ip (script_args inv)) (a_timeout (script_args inv))
              (a_max_steps (script_args inv)) (a_t_type (script_args inv)) false s)
    as (_ & H & _).
  rewrite (H eq_refl). unfold trace_lines.
  apply Forall_forall. intros ln Hin. apply filter_In in Hin.
  destruct Hin as (_ & Hin). apply negb_true_iff in Hin. exact Hin.
Qed.

End Tracert.

(** * Concrete runs *)

(** Five steps over [route]: three calls, three records. *)
Lemma main_probes_in_order_witness :
  let r := main 33434 LittleEndian route "10.0.0.9" 1 5 "icmp" false boot in
  ttls (log r) = map Z.of_nat (seq 1 (clock (final r) - clock boot)) /\
  (outcome r = Ret tt -> (clock (final r) - clock boot)%nat = List.length (hops (log r))).
Proof.
  pose proof (@main_probes_in_order 33434 LittleEndian route "10.0.0.9" 1 5 "icmp" false boot
                ltac:(lia) (or_introl eq_refl)) as H.
  cbv zeta in H. cbv zeta.
  split; [exact (proj1 H) | exact (proj1 (proj2 (proj2 (proj2 (proj2 H)))))].
Defined.

Example main_route_hops :
  hops (log (main 33434 LittleEndian route "10.0.0.9" 1 5 "udp" false boot))
  = [ {| hop_index := 0; hop_address := "*"; hop_name := "*" |};
      {| hop_index := 1; hop_address := "10.0.0.1"; hop_name := "gw.example" |};
      {| hop_index := 2; hop_address := "10.0.0.9"; hop_name := "10.0.0.9" |} ].
Proof. vm_compute. reflexivity. Qed.

(** C1, as it stands, fails: 300 steps over a network that never
    answers.  [setsockopt] refuses the hop limit 256 with OSError,
    which ends the run after 255 records: fewer than [max_steps], and
    none of them carries the destination.  The hop limits 257 to 300
    are never probed. *)
Lemma hop_limit_256_ends_the_sweep :
  let r := main 33434 LittleEndian (fun _ => ev_silent) "10.0.0.9" 1 300 "icmp" false boot in
  outcome r = Raise SocketError /\
  List.length (hops (log r)) = 255%nat /\
  existsb (reaches "10.0.0.9") (hops (log r)) = false /\
  ttls (log r) = map Z.of_nat (seq 1 256) /\
  List.length (sends (log r)) = 255%nat.
Proof. vm_compute. repeat split. Qed.

(** The silent first hop of [route]. *)
Lemma timed_out_hop_continues_witness :
  let r := main 33434 LittleEndian route "10.0.0.9" 1 5 "udp" false boot in
  nth_error (hops (log r)) 0
  = Some {| hop_index := 0; hop_address := "*"; hop_name := "*" |} /\
  nth_error (ttls (log r)) 1 = Some 2.
Proof.
  pose proof (@timed_out_hop_continues 33434 LittleEndian route "10.0.0.9" 1 5 "udp" false
                boot 0%nat (or_intror eq_refl) ltac:(discriminate) eq_refl eq_refl eq_refl)
    as H.
  destruct H as (_ & H). cbv zeta in H.
  destruct (H ltac:(vm_compute; lia) ltac:(lia)) as (H0 & H1).
  destruct (H1 ltac:(lia)) as (H2 & _).
  split; [exact H0 | exact H2].
Defined.

(** C4, as it stands, fails: [recvfrom] raises and trace_icmp leaves
    with its socket, descriptor 3, still open. *)
Lemma recv_error_leaves_socket_open :
  let r := trace_icmp 33434 LittleEndian (fun _ => ev_recv_fails) "10.0.0.9" 1 1 false boot in
  outcome r = Raise SocketError /\
  opened (log r) = [3%nat] /\ closed (log r) = [] /\
  leaked (log r) <> [].
Proof. vm_compute. repeat split; discriminate. Qed.

(** A call that times out closes both its sockets. *)
Lemma sockets_closed_when_call_returns_witness :
  let r := trace_udp 33434 route "10.0.0.9" 1 1 false boot in
  outcome r = Ret ("*", "*") /\ leaked (log r) = [].
Proof.
  pose proof (@sockets_closed_when_call_returns 33434 LittleEndian route
                "udp" (trace_udp 33434 route) "10.0.0.9" 1 1 false boot
                (or_intror (or_introl eq_refl))) as H.
  cbv zeta in H. exact (proj1 H (conj eq_refl eq_refl) eq_refl eq_refl).
Defined.

(** [sendto] raises: the call ends in UnboundLocalError. *)
Lemma send_error_escapes_as_unbound_local_witness :
  let r := trace_icmp 33434 LittleEndian (fun _ => ev_send_fails) "10.0.0.9" 1 1 true boot in
  outcome r = Raise UnboundLocalError /\
  selects (log r) = [] /\
  printed (log r) = [LErrMain] /\
  leaked (log r) = opened (log r) /\
  opened (log r) <> [].
Proof.
  exact (@send_error_escapes_as_unbound_local 33434 LittleEndian (fun _ => ev_send_fails)
           "icmp" (trace_icmp 33434 LittleEndian (fun _ => ev_send_fails))
           "10.0.0.9" 1 1 true boot (or_introl eq_refl) eq_refl eq_refl).
Defined.

Example send_error_ends_the_trace :
  let r := main 33434 LittleEndian (fun _ => ev_send_fails) "10.0.0.9" 1 32 "icmp" false boot in
  outcome r = Raise UnboundLocalError /\ hops (log r) = [].
Proof. vm_compute. split; reflexivity. Qed.



Example named_router_resolves :
  outcome (trace_udp 33434 route "10.0.0.9" 2 1 false {| clock := 1%nat; next_fd := 3%nat |})
  = Ret ("10.0.0.1", "gw.example").
Proof. vm_compute. reflexivity. Qed.

(** C8, as it stands, fails: trace_udp asks [recvfrom] for 512 bytes,
    not for the 1024 of trace_icmp. *)
Lemma trace_udp_reads_512_bytes :
  recv_sizes (log (trace_udp 33434 route "10.0.0.9" 2 1 false
                     {| clock := 1%nat; next_fd := 3%nat |})) = [512] /\
  recv_sizes (log (trace_icmp 33434 LittleEndian route "10.0.0.9" 2 1 false
                     {| clock := 1%nat; next_fd := 3%nat |})) = [1024] /\
  ~ Forall (fun n => n = 1024)
      (recv_sizes (log (trace_udp 33434 route "10.0.0.9" 2 1 false
                          {| clock := 1%nat; next_fd := 3%nat |}))).
Proof.
  vm_compute. repeat split. intros H. inversion H. discriminate.
Qed.

Example script_minus_five :
  script_args (WithArgs {| ns_destination := "10.0.0.9"; ns_timeout := Some (-5);
                           ns_t_type := Some "tcp"; ns_max_steps := None |})
  = {| a_dest_ip := "10.0.0.9"; a_timeout := 1; a_max_steps := 32;
       a_t_type := "icmp"; a_print_errors := false |}.
Proof. reflexivity. Qed.

(** What the coercion of lines 171-175 spares [main]: called with a
    time-out of -5, its first probe is sent and [select] then raises
    ValueError. *)
Example negative_timeout_in_main :
  let r := main 33434 LittleEndian route "10.0.0.9" (-5) 32 "icmp" false boot in
  outcome r = Raise ValueError /\ hops (log r) = [] /\ List.length (sends (log r)) = 1%nat.
Proof. vm_compute. repeat split. Qed.

(** The header of an echo request with identifier 12345 and a zero
    checksum field. *)
Lemma checksum_calc_meets_spec_witness :
  checksum_calc (bytes_of [8; 0; 0; 0; 0x39; 0x30; 1; 0])
  = Ret (spec_checksum (bytes_of [8; 0; 0; 0; 0x39; 0x30; 1; 0])).
Proof.
  apply (@checksum_calc_meets_spec (bytes_of [8; 0; 0; 0; 0x39; 0x30; 1; 0])).
  - reflexivity.
  - right. vm_compute. discriminate.
Defined.

(** C3, as it stands, fails: on 131076 bytes 0xFF the masks of lines
    72 and 77 drop a carry out of bit 32, and checksum_calc returns
    256 where the specification gives 0. *)
Lemma checksum_calc_wraps_on_long_input :
  checksum_calc long_ff = Ret 256 /\ spec_checksum long_ff = 0 /\
  checksum_calc long_ff <> Ret (spec_checksum long_ff).
Proof.
  assert (Hc : checksum_calc long_ff = Ret 256).
  { unfold checksum_calc. rewrite checksum_sum_pairs. vm_compute. reflexivity. }
  assert (Hs : spec_checksum long_ff = 0).
  { unfold spec_checksum.
    replace (spec_word_sum long_ff) with 4295032830 by (vm_compute; reflexivity).
    rewrite spec_fold_carry by lia.
    replace (fold_once 4295032830) with 131070 by (vm_compute; reflexivity).
    rewrite spec_fold_carry by lia.
    replace (fold_once 131070) with 65535 by (vm_compute; reflexivity).
    rewrite spec_fold_fits by lia. vm_compute. reflexivity. }
  split; [exact Hc | split; [exact Hs |]].
  rewrite Hc, Hs. discriminate.
Qed.

(** ** Further runs *)

(** Three bytes: the loop reads index 3. *)
Lemma checksum_calc_odd_raises_index_error_witness :
  checksum_calc (bytes_of [1; 2; 3]) = Raise IndexError.
Proof.
  exact (proj1 (@checksum_calc_odd_raises_index_error (bytes_of [1; 2; 3]) eq_refl)).
Defined.

Lemma checksum_calc_even_returns_16_bits_witness :
  exists c, checksum_calc (bytes_of [255; 255; 255; 255]) = Ret c /\ 0 <= c <= 65535.
Proof.
  exact (proj2 (proj2 (@checksum_calc_even_returns_16_bits
                         (bytes_of [255; 255; 255; 255]) eq_refl))).
Defined.

Lemma checksum_calc_app_comm_witness :
  checksum_calc (bytes_of [8; 0] ++ bytes_of [1; 2; 3; 4])
  = checksum_calc (bytes_of [1; 2; 3; 4] ++ bytes_of [8; 0]).
Proof.
  exact (@checksum_calc_app_comm (bytes_of [8; 0]) (bytes_of [1; 2; 3; 4]) eq_refl eq_refl).
Defined.

(** A negative step count, with a protocol [trace_funcs] does not know. *)
Lemma main_without_steps_witness :
  main 33434 LittleEndian route "10.0.0.9" 1 (-3) "tcp" true boot
  = (Ret tt, boot, [Stdout (LStart "10.0.0.9" "tcp" 1 (-3) 33434)]).
Proof.
  apply (@main_without_steps 33434 LittleEndian route "10.0.0.9" 1 (-3) "tcp" true boot).
  lia.
Defined.

Lemma main_unknown_protocol_raises_witness :
  main 33434 LittleEndian route "10.0.0.9" 1 5 "tcp" false boot
  = (Raise KeyError, boot, [Stdout (LStart "10.0.0.9" "tcp" 1 5 33434)]).
Proof.
  apply (@main_unknown_protocol_raises 33434 LittleEndian route "10.0.0.9" 1 5 "tcp" false boot);
    [discriminate | discriminate | lia].
Defined.

(** [sendto] fails at the first hop: one call, no record, and the
    exception ends the trace. *)
Lemma main_calls_are_bounded_witness :
  let r := main 33434 LittleEndian (fun _ => ev_send_fails) "10.0.0.9" 1 32 "icmp" false boot in
  ttls (log r) = map Z.of_nat (seq 1 (clock (final r) - clock boot)) /\
  Z.of_nat (clock (final r) - clock boot) <= Z.max 0 32.
Proof.
  pose proof (@main_calls_are_bounded 33434 LittleEndian (fun _ => ev_send_fails)
                "10.0.0.9" 1 32 "icmp" false boot (or_introl eq_refl)) as H.
  cbv zeta in H. cbv zeta. split; [exact (proj1 H) | exact (proj1 (proj2 H))].
Defined.

(** 300 steps over a silent network: the 256th call is the last. *)
Example silent_sweep_makes_256_calls :
  let r := main 33434 LittleEndian (fun _ => ev_silent) "10.0.0.9" 1 300 "udp" false boot in
  clock (final r) = 256%nat /\ outcome r = Raise SocketError /\
  leaked (log r) = [513%nat; 514%nat].
Proof. vm_compute. repeat split. Qed.

Example send_error_after_one_call :
  let r := main 33434 LittleEndian (fun _ => ev_send_fails) "10.0.0.9" 1 32 "icmp" false boot in
  ttls (log r) = [1] /\ clock (final r) = 1%nat.
Proof. vm_compute. split; reflexivity. Qed.

Lemma main_returns_with_sockets_closed_witness :
  leaked (log (main 33434 LittleEndian route "10.0.0.9" 1 5 "udp" false boot)) = [].
Proof.
  apply (@main_returns_with_sockets_closed 33434 LittleEndian route "10.0.0.9" 1 5 "udp"
           false boot).
  vm_compute. reflexivity.
Defined.

Lemma close_and_lookup_order_witness :
  before (Close 3%nat) (GetHostByAddr "10.0.0.1")
    (log (trace_icmp 33434 LittleEndian (fun _ => ev_reply (ip4 10 0 0 1) None)
            "10.0.0.9" 2 1 false boot)) /\
  before (GetHostByAddr "10.0.0.1") (Close 4%nat)
    (log (trace_udp 33434 (fun _ => ev_reply (ip4 10 0 0 1) None) "10.0.0.9" 2 1 false boot)) /\
  before (GetHostByAddr "10.0.0.1") (Close 3%nat)
    (log (trace_udp 33434 (fun _ => ev_reply (ip4 10 0 0 1) None) "10.0.0.9" 2 1 false boot)).
Proof.
  exact (@close_and_lookup_order 33434 LittleEndian (fun _ => ev_reply (ip4 10 0 0 1) None)
           "10.0.0.9" 2 1 false boot hello (ip4 10 0 0 1) 0
           (conj eq_refl eq_refl) eq_refl eq_refl eq_refl).
Defined.

(** The draws of [random.random()] on which the float product rounds
    up past the exact quotient: the identifier and the port are those
    Python computes. *)
Example scaled_int_rounds_up :
  scaled_int {| dr_k := 96545917011755; dr_ok := eq_refl |} 32000 = 343 /\
  (96545917011755 * 32000) / 2 ^ 53 = 342 /\
  scaled_int {| dr_k := 75228243230557; dr_ok := eq_refl |} 32567 = 272 /\
  (75228243230557 * 32567) / 2 ^ 53 = 271 /\
  port_of {| dr_k := 9007199254740991; dr_ok := eq_refl |} = 42566.
Proof. vm_compute. repeat split. Qed.

Example main_route_lines :
  printed (log (main 33434 LittleEndian route "10.0.0.9" 1 5 "icmp" false boot))
  = [ LStart "10.0.0.9" "icmp" 1 5 33434;
      LHop 0 "*" None;
      LHop 1 "10.0.0.1" (Some "gw.example");
      LHop 2 "10.0.0.9" None;
      LReached ].
Proof. vm_compute. reflexivity. Qed.
